(** * The guild cache of the Discord client library, and its snowflake utilities

    A shallow embedding of the cache-merge methods of [Guild]
    (discord/guild.py) and of [SnowflakeList], [snowflake_time] and the
    helpers of discord/utils.py, with the properties of the synchronisation
    core stated over it.

    Python objects are mutable and shared; the guild is threaded through a
    state-and-exception monad, and each in-place mutation of an object held in
    one of the guild's dictionaries is written as an update of that
    dictionary. *)

From Equations Require Import Equations.
From Stdlib Require SpecFloat.
From stdpp Require Import gmap strings list fin_maps sorting pretty.

Set Warnings "-register-all,-clear-no-such-hyp".

Local Open Scope Z_scope.

(** ** Python values

    Gateway payloads are decoded JSON: [None], booleans, integers, strings,
    lists and dictionaries. The numbers the guild reads are ids, counts,
    positions and levels, so a number is an integer. A dictionary keeps its
    items as an association list; a lookup returns the first item with the
    key. *)

Inductive pyval : Type :=
  | PNone
  | PBool (b : bool)
  | PInt (n : Z)
  | PStr (s : string)
  | PList (l : list pyval)
  | PDict (items : list (string * pyval)).

Definition pydict : Type := list (string * pyval).

Inductive exn : Type :=
  | KeyError
  | AttributeError
  | TypeError
  | ValueError
  | IndexError
  | OverflowError.

Definition result (A : Type) : Type := (exn + A)%type.

(** [d.get(key)]: the item, or nothing. *)
Fixpoint dict_lookup (d : pydict) (key : string) : option pyval :=
  match d with
  | [] => None
  | (k, v) :: d' => if String.eqb k key then Some v else dict_lookup d' key
  end.

(** [d.get(key, default)]. *)
Definition dict_get (d : pydict) (key : string) (default : pyval) : pyval :=
  match dict_lookup d key with
  | Some v => v
  | None => default
  end.

(** [d[key]]. *)
Definition dict_getitem (d : pydict) (key : string) : result pyval :=
  match dict_lookup d key with
  | Some v => inr v
  | None => inl KeyError
  end.

(** [key in d]. *)
Definition dict_contains (d : pydict) (key : string) : bool :=
  match dict_lookup d key with
  | Some _ => true
  | None => false
  end.

(** [v[key]] for a string key: only a dictionary can be subscripted by one. *)
Definition py_getitem (v : pyval) (key : string) : result pyval :=
  match v with
  | PDict d => dict_getitem d key
  | _ => inl TypeError
  end.

(** [v.get(key, default)]: only a dictionary has the method. *)
Definition py_get (v : pyval) (key : string) (default : pyval) : result pyval :=
  match v with
  | PDict d => inr (dict_get d key default)
  | _ => inl AttributeError
  end.

(** Truth value of an object, as [if v:] and [v and ...] test it. *)
Definition truthy (v : pyval) : bool :=
  match v with
  | PNone => false
  | PBool b => b
  | PInt n => negb (n =? 0)
  | PStr s => negb (String.eqb s "")
  | PList l => match l with [] => false | _ => true end
  | PDict d => match d with [] => false | _ => true end
  end.

Definition is_None (v : pyval) : bool :=
  match v with
  | PNone => true
  | _ => false
  end.

(** [for x in v]: the elements the loop visits. *)
Definition py_iter (v : pyval) : result (list pyval) :=
  match v with
  | PList l => inr l
  | PDict d => inr ((λ kv, PStr kv.1) <$> d)
  | PStr s => inr ((λ c, PStr (String c EmptyString)) <$> String.list_ascii_of_string s)
  | _ => inl TypeError
  end.

(** [v >= n] for an integer [n]; booleans are the integers 0 and 1. *)
Definition py_ge (v : pyval) (n : Z) : result bool :=
  match v with
  | PInt m => inr (n <=? m)
  | PBool b => inr (n <=? (if b then 1 else 0))
  | _ => inl TypeError
  end.

(** [v == n] for an integer [n]. *)
Definition py_eq_int (v : pyval) (n : Z) : bool :=
  match v with
  | PInt m => m =? n
  | PBool b => (if b then 1 else 0) =? n
  | _ => false
  end.

(** ** Entities held by a guild *)

Module Role.
Record t : Type := mk { id : Z; name : string; position : Z }.

Definition set_position (p : Z) (r : t) : t :=
  {| id := id r; name := name r; position := p |}.
End Role.

Module Member.
Record t : Type := mk { id : Z; status : pyval; activity : pyval }.

End Member.

Inductive channel_class : Type := TextChannel | VoiceChannel | CategoryChannel.

Module Channel.
Record t : Type := mk { id : Z; cls : channel_class; position : Z }.
End Channel.

Module Emoji.
Record t : Type := mk { id : Z; name : string }.
End Emoji.

(** Modelled from the spec: the [VoiceState] class (discord/member.py is not
    among the sources). The spec describes a voice state as the "channel
    occupied" and the "mute/deafen flags" of a user, and a voice-state update
    as applying the new state of the event payload; [VoiceState(data=...,
    channel=...)] and [VoiceState._update(data, channel)] are the two entry
    points guild.py calls. A flag the payload lacks reads as [False]. *)
Module VoiceState.
Record t : Type := mk {
  channel : option Channel.t;
  mute : pyval;
  deaf : pyval;
  self_mute : pyval;
  self_deaf : pyval
}.

Definition _update (data : pydict) (ch : option Channel.t) (_ : t) : t :=
  {| channel := ch;
     mute := dict_get data "mute" (PBool false);
     deaf := dict_get data "deaf" (PBool false);
     self_mute := dict_get data "self_mute" (PBool false);
     self_deaf := dict_get data "self_deaf" (PBool false) |}.

Definition init (data : pydict) (ch : option Channel.t) : t :=
  _update data ch (mk None PNone PNone PNone PNone).

End VoiceState.

(** ** Collaborators that are not part of guild.py

    The constructors of the entity classes, the enumerations and the
    connection state live in other modules. Each is taken as a parameter: a
    constructor is a function of its payload that may raise and does not
    touch the guild. *)

Inductive enum_class : Type :=
  | VoiceRegion | VerificationLevel | ContentFilter | Status.

Record Env : Type := {
  (** [Role.is_default()] *)
  is_default : Role.t → bool;
  (** [Role(guild=self, data=r, state=state)] *)
  Role_init : pyval → result Role.t;
  (** [Member(data=mdata, guild=self, state=state)] *)
  Member_init : pyval → result Member.t;
  (** [state.store_emoji(self, d)] *)
  store_emoji : pyval → result Emoji.t;
  (** [TextChannel(...)], [VoiceChannel(...)], [CategoryChannel(...)] *)
  Channel_init : channel_class → pyval → result Channel.t;
  (** [ChannelType.text.value], [.voice.value], [.category.value] *)
  ChannelType_value : channel_class → Z;
  (** [try_enum(cls, val)] *)
  try_enum : enum_class → pyval → pyval;
  (** [create_activity(data)] *)
  create_activity : pyval → result pyval;
  (** [int(s)] on a string; [None] stands for [ValueError] *)
  int_of_str : string → option Z
}.

(** ** A state-and-exception monad

    A method runs on the guild it mutates. An exception leaves the guild as
    the statements before it made it, as in Python. *)

Definition M (S A : Type) : Type := S → result A * S.

Global Instance M_ret {S} : MRet (M S) := λ A (x : A) (s : S), (inr x, s).

Global Instance M_bind {S} : MBind (M S) := λ A B (f : A → M S B) (m : M S A) (s : S),
  match m s with
  | (inr x, s') => f x s'
  | (inl e, s') => (inl e, s')
  end.

Definition raise {S A} (e : exn) : M S A := λ s, (inl e, s).

Definition gets {S A} (f : S → A) : M S A := λ s, (inr (f s), s).

Definition modify {S} (f : S → S) : M S unit := λ s, (inr tt, f s).

(** A pure computation that may raise, run inside a method. *)
Definition lift {S A} (r : result A) : M S A := λ s, (r, s).

(** [try: body  except exc: handler]; other exceptions propagate. *)
Definition try_except {S A} (body : M S A) (exc : exn → bool) (handler : M S A) : M S A :=
  λ s, match body s with
       | (inl e, s') => if exc e then handler s' else (inl e, s')
       | ok => ok
       end.

(** [for x in l: body]. *)
Fixpoint for_each {S A} (body : A → M S unit) (l : list A) : M S unit :=
  match l with
  | [] => mret tt
  | x :: l' => body x ;; for_each body l'
  end.

(** A method leaves a component [f] of the state alone, however it ends. *)
Definition preserves {S A X} (f : S → X) (m : M S A) : Prop :=
  ∀ s r s', m s = (r, s') → f s' = f s.

Definition res_bind {A B} (f : A → result B) (r : result A) : result B :=
  match r with
  | inr x => f x
  | inl e => inl e
  end.

(** [tuple(map(f, l))]: the elements in order, up to the first that raises. *)
Fixpoint res_map {A B} (f : A → result B) (l : list A) : result (list B) :=
  match l with
  | [] => inr []
  | x :: l' => res_bind (λ y, res_bind (λ ys, inr (y :: ys)) (res_map f l')) (f x)
  end.

Definition is_KeyError (e : exn) : bool :=
  match e with KeyError => true | _ => false end.

Definition is_AttributeError (e : exn) : bool :=
  match e with AttributeError => true | _ => false end.

(** ** discord/utils.py: the helpers guild.py calls *)

Section utils.
Context (E : Env).

(** [int(v)]. *)
Definition py_int (v : pyval) : result Z :=
  match v with
  | PInt n => inr n
  | PBool b => inr (Z.b2z b)
  | PStr s => match int_of_str E s with Some n => inr n | None => inl ValueError end
  | _ => inl TypeError
  end.

Definition _get_as_snowflake (data : pydict) (key : string) : result pyval :=
  match dict_lookup data key with
  | None => inr PNone
  | Some value => if truthy value then res_bind (λ n, inr (PInt n)) (py_int value) else inr value
  end.
End utils.

(** ** discord/guild.py: [Guild] *)

Module Guild.

(** The four entity dictionaries, the two attributes that hold objects, and
    the remaining slots by name. A slot that was never assigned is absent
    from [attrs]; reading it raises [AttributeError]. *)
Record t : Type := mk {
  _channels : gmap Z Channel.t;
  _members : gmap Z Member.t;
  _voice_states : gmap Z VoiceState.t;
  _roles : gmap Z Role.t;
  emojis : list Emoji.t;
  afk_channel : option Channel.t;
  attrs : gmap string pyval
}.

Definition set_channels (f : gmap Z Channel.t → gmap Z Channel.t) (g : t) : t :=
  mk (f (_channels g)) (_members g) (_voice_states g) (_roles g) (emojis g) (afk_channel g) (attrs g).
Definition set_members (f : gmap Z Member.t → gmap Z Member.t) (g : t) : t :=
  mk (_channels g) (f (_members g)) (_voice_states g) (_roles g) (emojis g) (afk_channel g) (attrs g).
Definition set_voice_states (f : gmap Z VoiceState.t → gmap Z VoiceState.t) (g : t) : t :=
  mk (_channels g) (_members g) (f (_voice_states g)) (_roles g) (emojis g) (afk_channel g) (attrs g).
Definition set_roles (f : gmap Z Role.t → gmap Z Role.t) (g : t) : t :=
  mk (_channels g) (_members g) (_voice_states g) (f (_roles g)) (emojis g) (afk_channel g) (attrs g).
Definition set_emojis (es : list Emoji.t) (g : t) : t :=
  mk (_channels g) (_members g) (_voice_states g) (_roles g) es (afk_channel g) (attrs g).
Definition set_afk_channel (c : option Channel.t) (g : t) : t :=
  mk (_channels g) (_members g) (_voice_states g) (_roles g) (emojis g) c (attrs g).
Definition set_attrs (f : gmap string pyval → gmap string pyval) (g : t) : t :=
  mk (_channels g) (_members g) (_voice_states g) (_roles g) (emojis g) (afk_channel g) (f (attrs g)).

(** [self.<slot> = v] and [self.<slot>]. *)
Definition setattr (slot : string) (v : pyval) : M t unit :=
  modify (set_attrs <[slot := v]>).

Definition getattr (slot : string) : M t pyval :=
  λ g, match attrs g !! slot with
       | Some v => (inr v, g)
       | None => (inl AttributeError, g)
       end.

(** [d.pop(key)] and [d[key]] on the role and voice-state dictionaries. *)
Definition pop_role (role_id : Z) : M t Role.t :=
  λ g, match _roles g !! role_id with
       | Some r => (inr r, set_roles (delete role_id) g)
       | None => (inl KeyError, g)
       end.

Definition pop_voice_state (user_id : Z) : M t VoiceState.t :=
  λ g, match _voice_states g !! user_id with
       | Some v => (inr v, set_voice_states (delete user_id) g)
       | None => (inl KeyError, g)
       end.

Definition getitem_voice_state (user_id : Z) : M t VoiceState.t :=
  λ g, match _voice_states g !! user_id with
       | Some v => (inr v, g)
       | None => (inl KeyError, g)
       end.

(** [d.get(key)] on a dictionary keyed by integers, for a key that is any
    Python value: [True] and [False] hash and compare as 1 and 0, no string
    or [None] equals an integer, and lists and dictionaries cannot be
    hashed. *)
Definition get_by_key {V} (d : gmap Z V) (key : pyval) : result (option V) :=
  match key with
  | PInt n => inr (d !! n)
  | PBool b => inr (d !! Z.b2z b)
  | PNone | PStr _ => inr None
  | PList _ | PDict _ => inl TypeError
  end.

Section methods.
Context (E : Env).

Definition _add_channel (channel : Channel.t) : M t unit :=
  modify (set_channels <[Channel.id channel := channel]>).

Definition _remove_channel (channel : Channel.t) : M t unit :=
  modify (set_channels (delete (Channel.id channel))).

Definition _voice_state_for (user_id : Z) : M t (option VoiceState.t) :=
  gets (λ g, _voice_states g !! user_id).

Definition _add_member (member : Member.t) : M t unit :=
  modify (set_members <[Member.id member := member]>).

(** [self._members.pop(member.id, None)] *)
Definition _remove_member (member : Member.t) : M t unit :=
  modify (set_members (delete (Member.id member))).

Definition get_channel (channel_id : pyval) : M t (option Channel.t) :=
  λ g, (get_by_key (_channels g) channel_id, g).

Definition get_member (user_id : Z) : M t (option Member.t) :=
  gets (λ g, _members g !! user_id).

(** The object bound to [after] in the [try] block is the one the
    dictionary holds (or held, once popped); [before] is a copy of it
    taken before [after._update] mutates it in place. While the object is
    still in the dictionary the mutation shows there. *)
Definition _update_voice_state (data : pydict) (channel_id : pyval)
  : M t (option Member.t * VoiceState.t * VoiceState.t) :=
  user_id ← lift (res_bind (py_int E) (dict_getitem data "user_id"));
  channel ← get_channel channel_id;
  '(before, after) ←
    try_except
      (after ← match channel with
               | None => pop_voice_state user_id
               | Some _ => getitem_voice_state user_id
               end;
       let before := after in
       let after := VoiceState._update data channel after in
       match channel with
       | None => mret tt
       | Some _ => modify (set_voice_states <[user_id := after]>)
       end;;
       mret (before, after))
      is_KeyError
      (let after := VoiceState.init data channel in
       let before := VoiceState.init data None in
       modify (set_voice_states <[user_id := after]>);;
       mret (before, after));
  member ← get_member user_id;
  mret (member, before, after).

(** [r.position += (not r.is_default())] on every role of the dictionary,
    then [self._roles[role.id] = role]. *)
Definition _add_role (role : Role.t) : M t unit :=
  modify (set_roles (fmap (λ r,
    Role.set_position (Role.position r + Z.b2z (negb (is_default E r))) r)));;
  modify (set_roles <[Role.id role := role]>).

(** [role = self._roles.pop(role_id)], then
    [r.position -= r.position > role.position] on every remaining role. *)
Definition _remove_role (role_id : Z) : M t Role.t :=
  role ← pop_role role_id;
  modify (set_roles (fmap (λ r,
    Role.set_position
      (Role.position r - Z.b2z (Role.position r >? Role.position role)) r)));;
  mret role.

Definition _sync (data : pydict) : M t unit :=
  match dict_getitem data "large" with
  | inr v => setattr "_large" v
  | inl _ => mret tt
  end;;
  presences ← lift (py_iter (dict_get data "presences" (PList [])));
  for_each (λ presence,
    user ← lift (py_getitem presence "user");
    user_id ← lift (res_bind (py_int E) (py_getitem user "id"));
    member ← get_member user_id;
    match member with
    | Some _ =>
        status ← lift (py_getitem presence "status");
        modify (set_members (alter (λ m,
          Member.mk (Member.id m) (try_enum E Status status) (Member.activity m)) user_id));;
        game ← lift (py_get presence "game" PNone);
        activity ← lift (create_activity E game);
        modify (set_members (alter (λ m,
          Member.mk (Member.id m) (Member.status m) activity) user_id))
    | None => mret tt
    end) presences;;
  if dict_contains data "channels" then
    channels ← lift (res_bind py_iter (dict_getitem data "channels"));
    for_each (λ c,
      ty ← lift (py_getitem c "type");
      if py_eq_int ty (ChannelType_value E TextChannel) then
        ch ← lift (Channel_init E TextChannel c); _add_channel ch
      else if py_eq_int ty (ChannelType_value E VoiceChannel) then
        ch ← lift (Channel_init E VoiceChannel c); _add_channel ch
      else if py_eq_int ty (ChannelType_value E CategoryChannel) then
        ch ← lift (Channel_init E CategoryChannel c); _add_channel ch
      else mret tt) channels
  else mret tt.

Definition _from_data (guild : pydict) : M t unit :=
  let member_count := dict_get guild "member_count" PNone in
  (if truthy member_count then setattr "_member_count" member_count else mret tt);;
  setattr "name" (dict_get guild "name" PNone);;
  setattr "region" (try_enum E VoiceRegion (dict_get guild "region" PNone));;
  setattr "verification_level"
    (try_enum E VerificationLevel (dict_get guild "verification_level" PNone));;
  setattr "explicit_content_filter"
    (try_enum E ContentFilter (dict_get guild "explicit_content_filter" (PInt 0)));;
  setattr "afk_timeout" (dict_get guild "afk_timeout" PNone);;
  setattr "icon" (dict_get guild "icon" PNone);;
  setattr "unavailable" (dict_get guild "unavailable" (PBool false));;
  id ← lift (res_bind (py_int E) (dict_getitem guild "id"));
  setattr "id" (PInt id);;
  modify (set_roles (λ _, ∅));;
  roles ← lift (py_iter (dict_get guild "roles" (PList [])));
  for_each (λ r,
    role ← lift (Role_init E r);
    modify (set_roles <[Role.id role := role]>)) roles;;
  setattr "mfa_level" (dict_get guild "mfa_level" PNone);;
  es ← lift (res_bind (res_map (store_emoji E))
               (py_iter (dict_get guild "emojis" (PList []))));
  modify (set_emojis es);;
  setattr "features" (dict_get guild "features" (PList []));;
  setattr "splash" (dict_get guild "splash" PNone);;
  system_channel_id ← lift (_get_as_snowflake E guild "system_channel_id");
  setattr "_system_channel_id" system_channel_id;;
  members ← lift (py_iter (dict_get guild "members" (PList [])));
  for_each (λ mdata,
    member ← lift (Member_init E mdata);
    _add_member member) members;;
  _sync guild;;
  large ← (if is_None member_count then mret PNone
           else count ← getattr "_member_count";
                b ← lift (py_ge count 250);
                mret (PBool b));
  setattr "_large" large;;
  owner_id ← lift (_get_as_snowflake E guild "owner_id");
  setattr "owner_id" owner_id;;
  afk_channel_id ← lift (_get_as_snowflake E guild "afk_channel_id");
  channel ← get_channel afk_channel_id;
  modify (set_afk_channel channel);;
  voice_states ← lift (py_iter (dict_get guild "voice_states" (PList [])));
  for_each (λ obj,
    channel_id ← lift (res_bind (py_int E) (py_getitem obj "channel_id"));
    match obj with
    | PDict data => _update_voice_state data (PInt channel_id);; mret tt
    | _ => raise TypeError
    end) voice_states.

(** The [large] property. *)
Definition large : M t pyval :=
  _large ← getattr "_large";
  if is_None _large then
    try_except
      (count ← getattr "_member_count";
       b ← lift (py_ge count 250);
       mret (PBool b))
      is_AttributeError
      (gets (λ g, PBool (250 <=? Z.of_nat (size (_members g)))))
  else mret _large.

(** [Guild(data=..., state=...)]: the three dictionaries [__init__]
    creates, then [_from_data]. The slots [_from_data] assigns do not
    exist before it runs; [_roles], [emojis] and [afk_channel] are shown
    empty until then. *)
Definition blank : t := mk ∅ ∅ ∅ ∅ [] None ∅.

Definition __init__ (data : pydict) : result unit * t := _from_data data blank.
End methods.

(** *** The role hierarchy

    A role-create event reaches the guild as [_add_role], a role-delete
    event as [_remove_role]. *)

Inductive role_event : Type :=
  | RoleCreate (role : Role.t)
  | RoleDelete (role_id : Z).

Section role_hierarchy.
Context (E : Env).

Definition apply_role_event (ev : role_event) : M t unit :=
  match ev with
  | RoleCreate role => _add_role E role
  | RoleDelete role_id => _remove_role role_id;; mret tt
  end.

Definition positions (roles : gmap Z Role.t) : list Z :=
  (λ kv, Role.position kv.2) <$> map_to_list roles.

(** The positions are 0, 1, ..., N-1 in some order, each once. *)
Definition contiguous (roles : gmap Z Role.t) : Prop :=
  positions roles ≡ₚ seqZ 0 (Z.of_nat (size roles)).

(** The guild has a default role, and a default role sits at position 0. *)
Definition default_at_zero (roles : gmap Z Role.t) : Prop :=
  (∃ i r, roles !! i = Some r ∧ is_default E r = true) ∧
  (∀ i r, roles !! i = Some r → is_default E r = true → Role.position r = 0).

Definition role_invariant (g : t) : Prop :=
  contiguous (_roles g) ∧ default_at_zero (_roles g).

(** A role-create event carries a role the guild does not have yet, which
    is not the default role, at position 1. *)
Definition create_new (role : Role.t) (g : t) : Prop :=
  _roles g !! Role.id role = None ∧ Role.position role = 1 ∧ is_default E role = false.

(** A role-delete event names a role of the guild... *)
Definition delete_present (role_id : Z) (g : t) : Prop :=
  is_Some (_roles g !! role_id).

(** ... which is not the default role. *)
Definition delete_non_default (role_id : Z) (g : t) : Prop :=
  ∃ r, _roles g !! role_id = Some r ∧ is_default E r = false.

(** Each event of the sequence is well-formed for the guild it reaches. *)
Fixpoint admissible (deletable : Z → t → Prop) (evs : list role_event) (g : t) : Prop :=
  match evs with
  | [] => True
  | ev :: evs' =>
      match ev with
      | RoleCreate role => create_new role g
      | RoleDelete role_id => deletable role_id g
      end ∧ admissible deletable evs' (apply_role_event ev g).2
  end.
End role_hierarchy.

(** *** Scalar fields

    The slots [_from_data] fills from the payload key of the same name, and
    the value it assigns to each. *)
Definition scalar_slots : list string :=
  ["name"; "region"; "verification_level"; "explicit_content_filter";
   "afk_timeout"; "icon"; "unavailable"; "mfa_level"; "features"; "splash"].

(** The scalar slots assigned before [self.id = int(guild['id'])], the first
    statement of [_from_data] that can raise. *)
Definition first_slots : list string :=
  ["name"; "region"; "verification_level"; "explicit_content_filter";
   "afk_timeout"; "icon"; "unavailable"].

Definition from_payload (E : Env) (guild : pydict) (slot : string) : pyval :=
  if decide (slot = "region") then
    try_enum E VoiceRegion (dict_get guild slot PNone)
  else if decide (slot = "verification_level") then
    try_enum E VerificationLevel (dict_get guild slot PNone)
  else if decide (slot = "explicit_content_filter") then
    try_enum E ContentFilter (dict_get guild slot (PInt 0))
  else if decide (slot = "unavailable") then dict_get guild slot (PBool false)
  else if decide (slot = "features") then dict_get guild slot (PList [])
  else dict_get guild slot PNone.

(** The slot dictionary a run of [_from_data] that raises nothing leaves
    behind, slot by slot in the order of the assignments, over the slots
    [old] the guild had. *)
Section attrs_from_data.
Context (E : Env).

Definition attrs_from_data (guild : pydict) (id : Z)
    (system_channel_id large owner_id : pyval) (old : gmap string pyval)
  : gmap string pyval :=
  let member_count := dict_get guild "member_count" PNone in
  <["owner_id" := owner_id]> (
  <["_large" := large]> (
  <["_system_channel_id" := system_channel_id]> (
  <["splash" := dict_get guild "splash" PNone]> (
  <["features" := dict_get guild "features" (PList [])]> (
  <["mfa_level" := dict_get guild "mfa_level" PNone]> (
  <["id" := PInt id]> (
  <["unavailable" := dict_get guild "unavailable" (PBool false)]> (
  <["icon" := dict_get guild "icon" PNone]> (
  <["afk_timeout" := dict_get guild "afk_timeout" PNone]> (
  <["explicit_content_filter" :=
      try_enum E ContentFilter (dict_get guild "explicit_content_filter" (PInt 0))]> (
  <["verification_level" :=
      try_enum E VerificationLevel (dict_get guild "verification_level" PNone)]> (
  <["region" := try_enum E VoiceRegion (dict_get guild "region" PNone)]> (
  <["name" := dict_get guild "name" PNone]> (
  if truthy member_count then <["_member_count" := member_count]> old else old
  )))))))))))))).

(** The slot dictionary when [_from_data] reaches [int(guild['id'])]. *)
Definition attrs_before_id (guild : pydict) (old : gmap string pyval)
  : gmap string pyval :=
  let member_count := dict_get guild "member_count" PNone in
  <["unavailable" := dict_get guild "unavailable" (PBool false)]> (
  <["icon" := dict_get guild "icon" PNone]> (
  <["afk_timeout" := dict_get guild "afk_timeout" PNone]> (
  <["explicit_content_filter" :=
      try_enum E ContentFilter (dict_get guild "explicit_content_filter" (PInt 0))]> (
  <["verification_level" :=
      try_enum E VerificationLevel (dict_get guild "verification_level" PNone)]> (
  <["region" := try_enum E VoiceRegion (dict_get guild "region" PNone)]> (
  <["name" := dict_get guild "name" PNone]> (
  if truthy member_count then <["_member_count" := member_count]> old else old
  ))))))).
End attrs_from_data.

End Guild.

(** ** discord/utils.py: snowflakes *)

Definition DISCORD_EPOCH : Z := 1420070400000.

(** The integer [snowflake_time] hands, divided by 1000 as a float, to
    [datetime.utcfromtimestamp]: milliseconds since the Unix epoch. *)
Definition snowflake_millis (id : Z) : Z := (id ≫ 22) + DISCORD_EPOCH.

(** Python floats are IEEE 754 binary64 values: the [spec_float] of the
    Standard Library at precision 53, with its correctly rounded operations
    (round to nearest, ties to even). *)
Module float.
Import SpecFloat.

Definition prec : Z := 53.
Definition emax : Z := 1024.

(** [float(n)] for an integer; exact below [2 ** 53] in magnitude. *)
Definition of_int (n : Z) : spec_float := binary_normalize prec emax n 0 false.

(** [a / b] on two integers, for operands that are exact as floats (those
    below [2 ** 53] in magnitude) and a divisor that is not 0: the float
    division of the two. *)
Definition truediv (a b : Z) : spec_float := SFdiv prec emax (of_int a) (of_int b).

(** [modf] of the C library: the integral part, here as an integer, and the
    fractional part, a float of the same sign. Both are exact. An infinity or
    a NaN has none: Python raises on them. *)
Definition modf (x : spec_float) : option (Z * spec_float) :=
  match x with
  | S754_zero _ => Some (0, x)
  | S754_finite s m e =>
      let intpart := Z.shiftl (Zpos m) e in
      let rest := Zpos m - Z.shiftl intpart (- e) in
      Some (cond_Zopp s intpart, binary_normalize prec emax (cond_Zopp s rest) e s)
  | _ => None
  end.

(** The nearest integer of a float, a tie going to the even one: Python's
    [round] on a float, and [_PyTime_RoundHalfEven] in C. *)
Definition round_half_even (x : spec_float) : option Z :=
  match x with
  | S754_zero _ => Some 0
  | S754_finite s m e =>
      let q := Z.shiftl (Zpos m) e in
      let r := Zpos m - Z.shiftl q (- e) in
      let half := Z.shiftl 1 (- e - 1) in
      Some (cond_Zopp s
              (if r <? half then q
               else if half <? r then q + 1
               else if Z.even q then q else q + 1))
  | _ => None
  end.

(** [datetime.utcfromtimestamp(t)] on a float, given as the microseconds from
    the Unix epoch to the datetime it returns. The interpreter splits [t]
    with [modf], multiplies the fraction by [1e6], rounds that half to even,
    and carries into the seconds when the microseconds reach a million or
    fall below zero ([_PyTime_DoubleToDenominator] in C, [round(frac * 1e6)]
    in the [datetime] module written in Python). The check that the year is
    between 1 and 9999 is left out. *)
Definition utcfromtimestamp (t : spec_float) : option Z :=
  '(intpart, floatpart) ← modf t;
  us ← round_half_even (SFmul prec emax floatpart (of_int 1000000));
  let '(sec, us) :=
    if 1000000 <=? us then (intpart + 1, us - 1000000)
    else if us <? 0 then (intpart - 1, us + 1000000)
    else (intpart, us) in
  Some (sec * 1000000 + us).

(** The microseconds [utcfromtimestamp] computes for the fraction of a
    timestamp whose unit in the last place is [2 ** -j], when that fraction is
    the nearest float to [k] thousandths: whether they are [1000 * k]. *)
Definition micros_ok (j k : Z) : bool :=
  match round_half_even
          (SFmul prec emax
             (binary_normalize prec emax ((k * 2 ^ j + 500) / 1000) (- j) false)
             (of_int 1000000)) with
  | Some us => us =? 1000 * k
  | None => false
  end.
End float.

(** [snowflake_time(id)]: the datetime returned, in microseconds since the
    Unix epoch. *)
Definition snowflake_time (id : Z) : option Z :=
  float.utcfromtimestamp (float.truediv (snowflake_millis id) 1000).

(** [bisect.bisect_left(a, x)]: the loop of the standard library, on the
    whole array. *)
Equations? bisect_loop (a : list Z) (x : Z) (lo hi : nat) : result nat by wf (hi - lo)%nat lt :=
  bisect_loop a x lo hi with decide (lo < hi)%nat => {
    | left _ with a !! (Nat.div (lo + hi) 2) => {
        | Some v with decide (v < x) => {
            | left _ := bisect_loop a x (S (Nat.div (lo + hi) 2)) hi
            | right _ := bisect_loop a x lo (Nat.div (lo + hi) 2) }
        | None := inl IndexError }
    | right _ := inr lo }.
Proof.
  all: change (Nat.divmod (lo + hi) 1 0 1).1 with (Nat.div (lo + hi) 2);
       pose proof (Nat.div_mod_eq (lo + hi) 2);
       pose proof (Nat.mod_upper_bound (lo + hi) 2); lia.
Qed.

Definition bisect_left (a : list Z) (x : Z) : result nat :=
  bisect_loop a x 0 (length a).

Module SnowflakeList.

(** An [array.array] of type code ['Q']: unsigned 64-bit items. *)
Abbreviation t := (list Z).

Definition fits_Q (x : Z) : bool := (0 <=? x) && (x <? 2 ^ 64).

(** [sorted(data)] on integers: the ascending arrangement of [data]. *)
Definition sorted (data : list Z) : list Z := merge_sort Z.le data.

(** [SnowflakeList(data, is_sorted=...)] *)
Definition __new__ (data : list Z) (is_sorted : bool) : result t :=
  let items := if is_sorted then data else sorted data in
  if forallb fits_Q items then inr items else inl OverflowError.

(** [self.insert(i, element)] *)
Definition insert (i : nat) (element : Z) (self : t) : result t :=
  if fits_Q element then inr (take i self ++ element :: drop i self)
  else inl OverflowError.

Definition add (element : Z) (self : t) : result t :=
  res_bind (λ i, insert i element self) (bisect_left self element).

Definition get (element : Z) (self : t) : result (option Z) :=
  res_bind (λ i,
    match self !! i with
    | Some v => inr (if bool_decide (i ≠ length self) && bool_decide (v = element)
                     then Some v else None)
    | None => if bool_decide (i ≠ length self) then inl IndexError else inr None
    end) (bisect_left self element).

Definition has (element : Z) (self : t) : result bool :=
  res_bind (λ i,
    match self !! i with
    | Some v => inr (bool_decide (i ≠ length self) && bool_decide (v = element))
    | None => if bool_decide (i ≠ length self) then inl IndexError else inr false
    end) (bisect_left self element).

(** A list built by the constructor and then grown by [add] calls. *)
Fixpoint add_all (elements : list Z) (self : t) : result t :=
  match elements with
  | [] => inr self
  | x :: xs => res_bind (add_all xs) (add x self)
  end.
End SnowflakeList.

(** ** A concrete set of collaborators

    For running the methods on concrete payloads: the default role is the one
    whose id is the guild's, a constructor keeps the payload fields this model
    has a slot for, an enumeration keeps the raw value, and [int] reads
    decimal digits. *)

Definition digit_of_ascii (c : Ascii.ascii) : option Z :=
  let n := Z.of_N (Ascii.N_of_ascii c) in
  if (48 <=? n) && (n <=? 57) then Some (n - 48) else None.

Fixpoint decimal_digits (acc : Z) (s : string) : option Z :=
  match s with
  | EmptyString => Some acc
  | String c s' =>
      match digit_of_ascii c with
      | Some d => decimal_digits (10 * acc + d) s'
      | None => None
      end
  end.

Definition decimal (s : string) : option Z :=
  match s with
  | EmptyString => None
  | _ => decimal_digits 0 s
  end.

Definition field_int (v : pyval) (key : string) : result Z :=
  match py_getitem v key with
  | inr (PInt n) => inr n
  | inr (PStr s) => match decimal s with Some n => inr n | None => inl ValueError end
  | inr _ => inl TypeError
  | inl e => inl e
  end.

Definition field_str (v : pyval) (key : string) : result string :=
  match py_getitem v key with
  | inr (PStr s) => inr s
  | inr _ => inl TypeError
  | inl e => inl e
  end.

Definition sample_env (guild_id : Z) : Env := {|
  is_default := λ r, Role.id r =? guild_id;
  Role_init := λ v,
    res_bind (λ i, res_bind (λ n, res_bind (λ p, inr (Role.mk i n p))
      (field_int v "position")) (field_str v "name")) (field_int v "id");
  Member_init := λ v, res_bind (λ i, inr (Member.mk i PNone PNone)) (field_int v "id");
  store_emoji := λ v,
    res_bind (λ i, res_bind (λ n, inr (Emoji.mk i n)) (field_str v "name")) (field_int v "id");
  Channel_init := λ cls v,
    res_bind (λ i, res_bind (λ p, inr (Channel.mk i cls p))
      (field_int v "position")) (field_int v "id");
  ChannelType_value := λ cls,
    match cls with TextChannel => 0 | VoiceChannel => 2 | CategoryChannel => 4 end;
  try_enum := λ _ v, v;
  create_activity := λ v, inr v;
  int_of_str := decimal
|}.

(** The guild of the role-delete scenario: [@everyone] at 0, [Admin] at 1,
    [Mod] at 2. The guild's id, and so its default role's, is 1. *)
Definition everyone : Role.t := Role.mk 1 "@everyone" 0.
Definition Admin : Role.t := Role.mk 2 "Admin" 1.
Definition Mod : Role.t := Role.mk 3 "Mod" 2.

Definition three_roles : Guild.t :=
  Guild.set_roles (λ _, <[3 := Mod]> (<[2 := Admin]> (<[1 := everyone]> ∅))) Guild.blank.

(** A guild that caches one member, user 5, and a member count of 1. *)
Definition one_member : Guild.t :=
  Guild.set_attrs <["_member_count" := PInt 1]>
    (Guild.set_members <[5 := Member.mk 5 PNone PNone]> Guild.blank).

(** A guild with one voice channel, 10, and nobody in voice. *)
Definition one_voice_channel : Guild.t :=
  Guild.set_channels <[10 := Channel.mk 10 VoiceChannel 0]> Guild.blank.

(** User 5 joins channel 10, server-muted. *)
Definition join_muted : pydict :=
  [("user_id", PStr "5"); ("channel_id", PStr "10"); ("mute", PBool true)].



(** User 5 leaves voice: the payload names no channel. *)
Definition leave_voice : pydict :=
  [("user_id", PStr "5"); ("channel_id", PNone)].

(** A guild snapshot of 300 members, and two later payloads for the same
    guild: one that carries only the icon, one whose member count is 0. *)
Definition snapshot_300 : pydict :=
  [("id", PStr "1"); ("name", PStr "G"); ("member_count", PInt 300)].

Definition icon_only : pydict :=
  [("id", PStr "1"); ("icon", PStr "abc")].

Definition count_zero : pydict :=
  [("id", PStr "1"); ("name", PStr "G"); ("member_count", PInt 0)].

(** A snapshot that gives every scalar field a value, and the guild built
    from it. *)
Definition full_snapshot : pydict :=
  [("id", PStr "1"); ("name", PStr "G"); ("region", PStr "us-west");
   ("verification_level", PInt 1); ("explicit_content_filter", PInt 1);
   ("afk_timeout", PInt 300); ("icon", PStr "abc"); ("unavailable", PBool false);
   ("mfa_level", PInt 1); ("features", PList [PStr "VIP_REGIONS"]);
   ("splash", PStr "def"); ("member_count", PInt 300)].

Definition populated : Guild.t := (Guild.__init__ (sample_env 1) full_snapshot).2.

(** * Further code of the two modules

    The rest of discord/utils.py and of [Guild] that runs without the network:
    the search helpers, the image and icon checks, the snowflake bit layout,
    and the guild's read-only views. *)

(** Exceptions of these functions: the built-in ones above, the division by
    zero, and the library's own [InvalidArgument] (discord/errors.py). *)
Inductive exception : Type :=
  | Builtin (e : exn)
  | ZeroDivisionError
  | InvalidArgument.

Module utils.

(** [find(predicate, seq)] on a sequence of objects of one class, none of
    which is [None]: [Some] is the [return element] of the loop, [None] the
    final [return None]. *)
Fixpoint find {A} (predicate : A → bool) (seq : list A) : option A :=
  match seq with
  | [] => None
  | element :: seq' => if predicate element then Some element else find predicate seq'
  end.

(** [find(predicate, seq)] on a sequence of any Python values: the caller
    receives the element found, which may itself be [None], or the [None] of
    the final [return]. *)
Fixpoint find_value (predicate : pyval → bool) (seq : list pyval) : pyval :=
  match seq with
  | [] => PNone
  | element :: seq' => if predicate element then element else find_value predicate seq'
  end.

(** [_unique(iterable)]: the comprehension keeps [x] when it is not in [seen]
    yet, and [adder(x)], which returns [None], then records it. *)
Fixpoint _unique_from `{Countable A} (seen : gset A) (iterable : list A) : list A :=
  match iterable with
  | [] => []
  | x :: iterable' =>
      if decide (x ∈ seen) then _unique_from seen iterable'
      else x :: _unique_from ({[x]} ∪ seen) iterable'
  end.

Definition _unique `{Countable A} (iterable : list A) : list A :=
  _unique_from ∅ iterable.

(** [valid_icon_size(size)] on an integer: [size & (size - 1)] is Python's
    bitwise and on unbounded integers. *)
Definition valid_icon_size (size : Z) : bool :=
  (negb (size =? 0) && (Z.land size (size - 1) =? 0)) && ((16 <=? size) && (size <? 2049)).

(** The value [time_snowflake] returns once it holds the integer
    [discord_millis]; the conversion of the datetime to that integer goes
    through floats and is not part of this function. *)
Definition time_snowflake_value (discord_millis : Z) (high : bool) : Z :=
  (discord_millis ≪ 22) + (if high then 2 ^ 22 - 1 else 0).

(** [bytes.startswith], [bytes.endswith] and [bytes.rstrip(b'\0')]. *)
Fixpoint startswith (data prefix : list Byte.byte) : bool :=
  match prefix, data with
  | [], _ => true
  | _ :: _, [] => false
  | p :: prefix', d :: data' => Byte.eqb d p && startswith data' prefix'
  end.

Definition endswith (data suffix : list Byte.byte) : bool :=
  startswith (reverse data) (reverse suffix).

Fixpoint lstrip_nul (data : list Byte.byte) : list Byte.byte :=
  match data with
  | d :: data' => if Byte.eqb d Byte.x00 then lstrip_nul data' else data
  | [] => []
  end.

Definition rstrip_nul (data : list Byte.byte) : list Byte.byte :=
  reverse (lstrip_nul (reverse data)).

Definition PNG_signature : list Byte.byte :=
  [Byte.x89; Byte.x50; Byte.x4e; Byte.x47; Byte.x0d; Byte.x0a; Byte.x1a; Byte.x0a].
Definition JPEG_start : list Byte.byte := [Byte.xff; Byte.xd8].
Definition JPEG_end : list Byte.byte := [Byte.xff; Byte.xd9].
Definition GIF87a : list Byte.byte :=
  [Byte.x47; Byte.x49; Byte.x46; Byte.x38; Byte.x37; Byte.x61].
Definition GIF89a : list Byte.byte :=
  [Byte.x47; Byte.x49; Byte.x46; Byte.x38; Byte.x39; Byte.x61].

Definition _get_mime_type_for_image (data : list Byte.byte) : exception + string :=
  if startswith data PNG_signature then inr "image/png"
  else if startswith data JPEG_start && endswith (rstrip_nul data) JPEG_end then
    inr "image/jpeg"
  else if startswith data GIF87a || startswith data GIF89a then inr "image/gif"
  else inl InvalidArgument.

End utils.

Module GuildViews.

(** [list(self._channels.values())] and [list(self._members.values())]; the
    order of a dictionary's values is not kept by the model, and nothing
    below depends on it. *)
Definition channels (g : Guild.t) : list Channel.t := (map_to_list (Guild._channels g)).*2.

Definition members (g : Guild.t) : list Member.t := (map_to_list (Guild._members g)).*2.

(** The key [(c.position, c.id)] and the order of Python tuples on it. *)
Definition sort_key (c : Channel.t) : Z * Z := (Channel.position c, Channel.id c).

Definition key_le (c1 c2 : Channel.t) : Prop :=
  (sort_key c1).1 < (sort_key c2).1 ∨
  ((sort_key c1).1 = (sort_key c2).1 ∧ (sort_key c1).2 ≤ (sort_key c2).2).

Global Instance channel_class_eq_dec : EqDecision channel_class.
Proof. solve_decision. Defined.

Global Instance key_le_dec : RelDecision key_le.
Proof. intros c1 c2. unfold key_le. apply _. Defined.

(** [r = [ch for ch in self._channels.values() if isinstance(ch, cls)]], then
    [r.sort(key=lambda c: (c.position, c.id))]. *)
Definition of_class (cls : channel_class) (g : Guild.t) : list Channel.t :=
  merge_sort key_le (filter (λ ch, Channel.cls ch = cls) (channels g)).

Definition voice_channels : Guild.t → list Channel.t := of_class VoiceChannel.
Definition text_channels : Guild.t → list Channel.t := of_class TextChannel.
Definition categories : Guild.t → list Channel.t := of_class CategoryChannel.

Definition get_role (role_id : Z) (g : Guild.t) : option Role.t :=
  Guild._roles g !! role_id.

(** The function under the [default_role] property:
    [utils.find(lambda r: r.is_default(), self._roles.values())]. The
    [cached_slot_property] around it, which keeps the first result in the
    slot [_default_role], is not modelled: this is what an access computes
    while the slot is unset. *)
Definition roles_values (g : Guild.t) : list Role.t := (map_to_list (Guild._roles g)).*2.

Definition default_role (E : Env) (g : Guild.t) : option Role.t :=
  utils.find (is_default E) (roles_values g).

(** The [chunked] property: [getattr(self, '_member_count', None)], then the
    comparison with [len(self._members)]. *)
Definition chunked (g : Guild.t) : bool :=
  let count := default PNone (Guild.attrs g !! "_member_count") in
  if is_None count then false
  else py_eq_int count (Z.of_nat (size (Guild._members g))).

(** [x >> n] on a Python value. *)
Definition py_rshift (v : pyval) (n : Z) : result Z :=
  match v with
  | PInt x => inr (x ≫ n)
  | PBool b => inr (Z.b2z b ≫ n)
  | _ => inl TypeError
  end.

(** The [shard_id] property; [shard_count] is [self._state.shard_count]. *)
Definition shard_id (shard_count : option Z) (g : Guild.t) : exception + option Z :=
  match shard_count with
  | None => inr None
  | Some count =>
      match Guild.attrs g !! "id" with
      | None => inl (Builtin AttributeError)
      | Some id =>
          match py_rshift id 22 with
          | inl e => inl (Builtin e)
          | inr hi => if count =? 0 then inl ZeroDivisionError else inr (Some (hi `mod` count))
          end
      end
  end.

Definition VALID_ICON_FORMATS : list string := ["jpeg"; "jpg"; "webp"; "png"].

Section urls.
(** [str(v)], as [str.format] applies it to a field. *)
Context (py_str : pyval → string).

(** [icon_url_as(format=..., size=...)] *)
Definition icon_url_as (format : string) (size : Z) (g : Guild.t) : exception + string :=
  if negb (utils.valid_icon_size size) then inl InvalidArgument
  else if negb (bool_decide (format ∈ VALID_ICON_FORMATS)) then inl InvalidArgument
  else
    match Guild.attrs g !! "icon" with
    | None => inl (Builtin AttributeError)
    | Some icon =>
        if is_None icon then inr ""
        else
          match Guild.attrs g !! "id" with
          | None => inl (Builtin AttributeError)
          | Some id =>
              inr ("https://cdn.discordapp.com/icons/" +:+ py_str id +:+ "/" +:+ py_str icon
                   +:+ "." +:+ format +:+ "?size=" +:+ py_str (PInt size))
          end
    end.

(** The [icon_url] property. *)
Definition icon_url (g : Guild.t) : exception + string := icon_url_as "webp" 1024 g.
End urls.

End GuildViews.

(** A general form of [preserves]: whatever way a method ends, the state it
    leaves is related to the one it started from. *)
Definition maintains {S A} (R : relation S) (m : M S A) : Prop :=
  ∀ s r s', m s = (r, s') → R s s'.

(** What [_sync] leaves of a guild: the same members under the same keys (only
    their status and activity may differ), the same roles, voice states,
    emojis and AFK channel, and every channel key it had. *)
Definition sync_frame (g g' : Guild.t) : Prop :=
  dom (Guild._members g') = dom (Guild._members g) ∧
  dom (Guild._channels g) ⊆ dom (Guild._channels g') ∧
  Guild._roles g' = Guild._roles g ∧
  Guild._voice_states g' = Guild._voice_states g ∧
  Guild.emojis g' = Guild.emojis g ∧
  Guild.afk_channel g' = Guild.afk_channel g.

(** What a rebuild never does to the caches: the members keep their keys or
    gain some, and so do the channels. *)
Definition caches_grow (g g' : Guild.t) : Prop :=
  dom (Guild._members g) ⊆ dom (Guild._members g') ∧
  dom (Guild._channels g) ⊆ dom (Guild._channels g').

(** The role dictionary the loop of [_from_data] builds from the roles it
    constructed, in their order. *)
Definition roles_of (rs : list Role.t) : gmap Z Role.t :=
  foldl (λ m r, <[Role.id r := r]> m) ∅ rs.

(** [str] on the values a URL is formatted from: a string as it is, an
    integer in decimal. *)
Definition sample_str (v : pyval) : string :=
  match v with
  | PStr s => s
  | PInt n => pretty n
  | PBool true => "True"
  | PBool false => "False"
  | _ => "None"
  end.

(** A payload with a presence for user 9 and one text channel, 20. *)
Definition presence_and_channel : pydict :=
  [("presences",
    PList [PDict [("user", PDict [("id", PStr "9")]); ("status", PStr "online")]]);
   ("channels",
    PList [PDict [("id", PStr "20"); ("type", PInt 0); ("position", PInt 0)]])].

(** A guild payload with two roles, and one that lacks the id. *)
Definition two_roles : pydict :=
  [("id", PStr "1");
   ("roles",
    PList [PDict [("id", PStr "1"); ("name", PStr "@everyone"); ("position", PInt 0)];
           PDict [("id", PStr "2"); ("name", PStr "Admin"); ("position", PInt 1)]])].

Definition no_id : pydict := [("name", PStr "H"); ("icon", PStr "abc")].

(** * Properties *)

(** ** The role hierarchy under role-create and role-delete *)

Lemma b2z_gtb (p q : Z) : Z.b2z (p >? q) = if decide (q < p) then 1 else 0.
Proof.
  rewrite Z.gtb_ltb. case_decide.
  - by rewrite (proj2 (Z.ltb_lt _ _)).
  - by rewrite (proj2 (Z.ltb_ge _ _)) by lia.
Qed.

Section role_facts.
Context (E : Env).
Implicit Types (roles : gmap Z Role.t) (g : Guild.t).

Lemma positions_insert roles i r :
  roles !! i = None →
  Guild.positions (<[i := r]> roles) ≡ₚ Role.position r :: Guild.positions roles.
Proof.
  intros Hi. unfold Guild.positions.
  by rewrite map_to_list_insert.
Qed.

Lemma positions_delete roles i r :
  roles !! i = Some r →
  Guild.positions roles ≡ₚ Role.position r :: Guild.positions (delete i roles).
Proof.
  intros Hi. unfold Guild.positions.
  by rewrite <-(map_to_list_delete roles i r).
Qed.

Lemma positions_fmap (f : Role.t → Role.t) (h : Z → Z) roles :
  (∀ i r, roles !! i = Some r → Role.position (f r) = h (Role.position r)) →
  Guild.positions (f <$> roles) = h <$> Guild.positions roles.
Proof.
  intros Hf. unfold Guild.positions.
  rewrite map_to_list_fmap, <-!list_fmap_compose.
  apply Forall_fmap_ext, Forall_forall. intros [i r] Hir.
  apply elem_of_map_to_list in Hir. simpl. eauto.
Qed.

Lemma position_elem_of roles i r :
  roles !! i = Some r → Role.position r ∈ Guild.positions roles.
Proof.
  intros Hi. unfold Guild.positions. apply list_elem_of_fmap.
  exists (i, r). split; [done|]. by apply elem_of_map_to_list.
Qed.

(** Two roles of a contiguous hierarchy at the same position are one. *)
Lemma contiguous_inj roles i j r r' :
  Guild.contiguous roles →
  roles !! i = Some r → roles !! j = Some r' →
  Role.position r = Role.position r' → i = j.
Proof.
  intros Hc Hi Hj Hp. destruct (decide (i = j)) as [|Hne]; [done|exfalso].
  assert (NoDup (Guild.positions roles)) as Hnd.
  { unfold Guild.contiguous in Hc. rewrite Hc. apply NoDup_seqZ. }
  rewrite (positions_delete roles i r) in Hnd by done.
  apply NoDup_cons in Hnd as [Hnotin _]. apply Hnotin.
  rewrite Hp. apply (position_elem_of _ j). by rewrite lookup_delete_ne.
Qed.

Lemma contiguous_range roles i r :
  Guild.contiguous roles → roles !! i = Some r →
  0 ≤ Role.position r < Z.of_nat (size roles).
Proof.
  intros Hc Hi. apply (position_elem_of _ _ _) in Hi.
  unfold Guild.contiguous in Hc. rewrite Hc in Hi.
  apply elem_of_seqZ in Hi. lia.
Qed.

(** In a well-formed hierarchy the role at position 0 is the default one. *)
Lemma zero_is_default roles i r :
  Guild.contiguous roles → Guild.default_at_zero E roles →
  roles !! i = Some r → Role.position r = 0 → is_default E r = true.
Proof.
  intros Hc [(j & d & Hj & Hd) Hz] Hi Hp.
  assert (i = j) as -> by (eapply contiguous_inj; eauto; rewrite Hp; symmetry; eauto).
  congruence.
Qed.

Hypothesis is_default_position :
  ∀ r p, is_default E (Role.set_position p r) = is_default E r.

Lemma add_role_run role g :
  Guild._add_role E role g =
    (inr tt, Guild.set_roles (λ roles, <[Role.id role := role]>
       ((λ r, Role.set_position (Role.position r + Z.b2z (negb (is_default E r))) r)
          <$> roles)) g).
Proof. by destruct g. Qed.

Lemma remove_role_run role_id role g :
  Guild._roles g !! role_id = Some role →
  Guild._remove_role role_id g =
    (inr role, Guild.set_roles (λ roles,
       (λ r, Role.set_position
               (Role.position r - Z.b2z (Role.position r >? Role.position role)) r)
          <$> delete role_id roles) g).
Proof.
  intros Hr. unfold Guild._remove_role, Guild.pop_role, mbind, M_bind.
  rewrite Hr. by destruct g.
Qed.

Lemma add_role_invariant role g :
  Guild.role_invariant E g → Guild.create_new E role g →
  Guild.role_invariant E (Guild._add_role E role g).2.
Proof.
  intros [Hc Hd] (Hfresh & Hpos & Hnd). rewrite add_role_run.
  pose proof Hc as Hperm. unfold Guild.contiguous in Hperm.
  unfold Guild.role_invariant, Guild.set_roles. simpl.
  set (bump := λ r, Role.set_position _ r).
  set (roles := Guild._roles g) in *.
  assert ((bump <$> roles) !! Role.id role = None) as Hfresh'
    by (by rewrite lookup_fmap, Hfresh).
  split.
  - unfold Guild.contiguous.
    rewrite map_size_insert_None, map_size_fmap by done.
    rewrite positions_insert by done.
    rewrite (positions_fmap bump (λ p, if decide (p = 0) then 0 else 1 + p)); last first.
    { intros i r Hi. unfold bump. simpl. case_decide as Hp.
      - rewrite (zero_is_default roles i r) by done. simpl. lia.
      - destruct (is_default E r) eqn:Hdr; [|simpl; lia].
        destruct Hd as [_ Hz]. exfalso. eauto. }
    rewrite Hperm, Hpos.
    destruct Hd as [(j & d & Hj & _) _].
    assert (size roles ≠ 0%nat) as Hsz by (eapply map_size_ne_0_lookup_2; eauto).
    rewrite (seqZ_cons 0 (Z.of_nat (size roles))) by lia. simpl.
    rewrite (seqZ_cons 0 (Z.of_nat (S (size roles)))) by lia.
    rewrite (seqZ_cons (Z.succ 0) (Z.pred (Z.of_nat (S (size roles))))) by lia.
    rewrite Permutation_swap. do 2 f_equiv.
    replace (Z.pred (Z.pred (Z.of_nat (S (size roles))))) with (Z.pred (Z.of_nat (size roles))) by lia.
    rewrite <-(fmap_add_seqZ 1 (Z.succ 0)).
    apply Permutation_refl', Forall_fmap_ext, Forall_seqZ.
    intros p Hp. case_decide; lia.
  - destruct Hd as [(j & d & Hj & Hdj) Hz]. split.
    + exists j, (bump d). split.
      * rewrite lookup_insert_ne by congruence.
        by rewrite lookup_fmap, Hj.
      * unfold bump. by rewrite is_default_position.
    + intros i r Hi Hdr.
      apply lookup_insert_Some in Hi as [[_ <-]|[_ Hi]]; [congruence|].
      apply lookup_fmap_Some in Hi as (r0 & <- & Hi).
      unfold bump in *. rewrite is_default_position in Hdr.
      simpl. rewrite Hdr. simpl. rewrite (Hz i r0) by done. lia.
Qed.

Lemma remove_role_invariant role_id g :
  Guild.role_invariant E g → Guild.delete_non_default E role_id g →
  ∃ role, (Guild._remove_role role_id g).1 = inr role ∧
    Guild.role_invariant E (Guild._remove_role role_id g).2.
Proof.
  intros [Hc Hd] (role & Hrole & Hnd). exists role.
  rewrite (remove_role_run role_id role) by done. split; [done|].
  pose proof Hc as Hperm. unfold Guild.contiguous in Hperm.
  pose proof (contiguous_range _ _ _ Hc Hrole) as Hrange.
  pose proof (positions_delete _ _ _ Hrole) as Hdel.
  unfold Guild.role_invariant, Guild.set_roles. simpl.
  set (shift := λ r, Role.set_position _ r).
  set (roles := Guild._roles g) in *.
  set (p0 := Role.position role) in *.
  split.
  - unfold Guild.contiguous.
    rewrite map_size_fmap, map_size_delete_Some by done.
    rewrite (positions_fmap shift (λ p, if decide (p0 < p) then p - 1 else p)); last first.
    { intros i r _. unfold shift. simpl. fold p0.
      rewrite b2z_gtb. repeat case_decide; lia. }
    assert (Guild.positions (delete role_id roles)
              ≡ₚ seqZ 0 p0 ++ seqZ (p0 + 1) (Z.of_nat (size roles) - p0 - 1)) as ->.
    { apply (Permutation_cons_inv (a := p0)).
      rewrite <-Hdel, Hperm.
      rewrite Permutation_middle.
      replace (Z.of_nat (size roles)) with (p0 + (1 + (Z.of_nat (size roles) - p0 - 1))) at 1 by lia.
      rewrite seqZ_app by lia. rewrite (seqZ_app _ 1) by lia.
      rewrite Z.add_0_l. by rewrite (seqZ_cons p0 1), (seqZ_nil (Z.succ p0)) by lia. }
    rewrite fmap_app.
    replace (Z.of_nat (Nat.pred (size roles))) with (p0 + (Z.of_nat (size roles) - p0 - 1)) by lia.
    rewrite seqZ_app by lia. rewrite Z.add_0_l.
    apply Permutation_refl'. f_equal.
    + rewrite <-(list_fmap_id (seqZ 0 p0)) at 2.
      apply Forall_fmap_ext, Forall_seqZ. intros p Hp. case_decide; simpl; lia.
    + transitivity (Z.add (-1) <$> seqZ (p0 + 1) (Z.of_nat (size roles) - p0 - 1)).
      * apply Forall_fmap_ext, Forall_seqZ. intros p Hp. case_decide; lia.
      * rewrite fmap_add_seqZ. f_equal. lia.
  - destruct Hd as [(j & d & Hj & Hdj) Hz]. split.
    + exists j, (shift d). split.
      * rewrite lookup_fmap, lookup_delete_ne by congruence. by rewrite Hj.
      * unfold shift. by rewrite is_default_position.
    + intros i r Hi Hdr.
      apply lookup_fmap_Some in Hi as (r0 & <- & Hi).
      apply lookup_delete_Some in Hi as [_ Hi].
      unfold shift in *. rewrite is_default_position in Hdr.
      simpl. rewrite (Hz i r0) by done.
      fold p0. rewrite b2z_gtb. case_decide; lia.
Qed.
End role_facts.

(** C1 (as amended). Starting from a guild whose role positions are the
    contiguous integers 0 .. N-1, each once, with the default role at
    position 0, every sequence of role-create events (a role with a fresh id
    that is not the default role, carrying position 1) and role-delete events
    of roles that are present and are not the default role runs without an
    exception and ends in a guild whose positions are again contiguous from 0,
    each once, with the default role at position 0. *)
Theorem role_events_keep_hierarchy (E : Env) (g : Guild.t) (evs : list Guild.role_event) :
  (∀ r p, is_default E (Role.set_position p r) = is_default E r) →
  Guild.role_invariant E g →
  Guild.admissible E (Guild.delete_non_default E) evs g →
  ∃ g', for_each (Guild.apply_role_event E) evs g = (inr tt, g') ∧
        Guild.role_invariant E g'.
Proof.
  intros Hpos. revert g. induction evs as [|ev evs IH]; intros g Hinv Hadm.
  - exists g. by split.
  - destruct Hadm as [Hev Hadm]. simpl. unfold mbind, M_bind.
    destruct ev as [role|role_id].
    + pose proof (add_role_invariant E Hpos role g Hinv Hev) as Hinv'.
      cbn [Guild.apply_role_event] in Hadm |- *.
      rewrite add_role_run in Hinv', Hadm |- *. by apply IH.
    + destruct (remove_role_invariant E Hpos role_id g Hinv Hev) as (role & Hrun & Hinv').
      cbn [Guild.apply_role_event] in Hadm |- *. unfold mbind, M_bind in Hadm |- *.
      destruct (Guild._remove_role role_id g) as [[e|r] g1]; simplify_eq/=.
      by apply IH.
Qed.

Lemma three_roles_invariant : Guild.role_invariant (sample_env 1) three_roles.
Proof.
  split.
  - unfold Guild.contiguous. apply (bool_decide_unpack _). by vm_compute.
  - split.
    + exists 1, everyone. split; reflexivity.
    + intros i r Hi Hd. simpl in Hi.
      repeat (apply lookup_insert_Some in Hi as [[_ <-]|[_ Hi]]; [by vm_compute in Hd|]).
      by apply lookup_empty_Some in Hi.
Qed.

(** The hierarchy survives creating a role and deleting [Admin] in the
    three-role guild. *)
Lemma role_events_keep_hierarchy_witness :
  ∃ g', for_each (Guild.apply_role_event (sample_env 1))
          [Guild.RoleCreate (Role.mk 4 "Bots" 1); Guild.RoleDelete 2] three_roles = (inr tt, g') ∧
        Guild.role_invariant (sample_env 1) g'.
Proof.
  apply role_events_keep_hierarchy.
  - intros r p. reflexivity.
  - apply three_roles_invariant.
  - split; [|split; [|exact I]].
    + split; [reflexivity|]. split; reflexivity.
    + exists (Role.mk 2 "Admin" 2). split; [|reflexivity]. vm_compute. reflexivity.
Defined.

(** C1 as stated fails: a role-delete of a role that is present may name the
    default role. After it a role-create pushes the role now at position 0 up
    to the position the new role carries. *)
Lemma role_delete_default_breaks_hierarchy :
  Guild.role_invariant (sample_env 1) three_roles ∧
  Guild.admissible (sample_env 1) Guild.delete_present
    [Guild.RoleDelete 1; Guild.RoleCreate (Role.mk 4 "Bots" 1)] three_roles ∧
  ∃ g', for_each (Guild.apply_role_event (sample_env 1))
          [Guild.RoleDelete 1; Guild.RoleCreate (Role.mk 4 "Bots" 1)] three_roles = (inr tt, g') ∧
        ¬ Guild.role_invariant (sample_env 1) g'.
Proof.
  split; [apply three_roles_invariant|]. split.
  - split; [by eexists|]. split; [|exact I].
    split; [by vm_compute|]. split; reflexivity.
  - eexists. split; [vm_compute; reflexivity|].
    intros [Hc _]. revert Hc. unfold Guild.contiguous.
    apply (bool_decide_unpack _). by vm_compute.
Qed.

(** ** Role-delete *)

(** C2. [_remove_role] of a role that is present returns that role, removes
    exactly its entry, lowers by one the position of exactly the remaining
    roles that stood above it and leaves every other role, and the rest of the
    guild, as it was. On the three-role guild, deleting [Admin] leaves
    [@everyone] at 0 and [Mod] at 1. *)
Theorem remove_role_renumbers :
  (∀ (g : Guild.t) (role_id : Z) (role : Role.t),
     Guild._roles g !! role_id = Some role →
     ∃ g', Guild._remove_role role_id g = (inr role, g') ∧
       Guild._roles g' !! role_id = None ∧
       (∀ i r, i ≠ role_id → Guild._roles g !! i = Some r →
          Guild._roles g' !! i =
            Some (if decide (Role.position role < Role.position r)
                  then Role.set_position (Role.position r - 1) r else r)) ∧
       (∀ i, Guild._roles g !! i = None → Guild._roles g' !! i = None) ∧
       g' = Guild.set_roles (λ _, Guild._roles g') g) ∧
  (∃ g', Guild._remove_role 2 three_roles = (inr Admin, g') ∧
     Guild._roles g' = <[3 := Role.mk 3 "Mod" 1]> (<[1 := Role.mk 1 "@everyone" 0]> ∅)).
Proof.
  split.
  - intros g role_id role Hrole. eexists. split; [by apply remove_role_run|].
    unfold Guild.set_roles. simpl. repeat split.
    + by rewrite lookup_fmap, lookup_delete_eq.
    + intros i r Hne Hi. rewrite lookup_fmap, lookup_delete_ne, Hi by done.
      simpl. f_equal. rewrite b2z_gtb. case_decide; [done|].
      destruct r. unfold Role.set_position. simpl. f_equal. lia.
    + intros i Hi. rewrite lookup_fmap.
      destruct (decide (i = role_id)) as [->|Hne].
      * by rewrite lookup_delete_eq.
      * by rewrite lookup_delete_ne, Hi.
  - eexists. split; [by apply remove_role_run|].
    apply map_eq. intros i. apply option_eq. intros r.
    by vm_compute.
Qed.

(** On the three-role guild, deleting [Admin]: the general statement applied
    to the scenario. *)
Lemma remove_role_renumbers_witness :
  ∃ g', Guild._remove_role 2 three_roles = (inr Admin, g') ∧
    Guild._roles g' !! 2 = None ∧
    (∀ i r, i ≠ 2 → Guild._roles three_roles !! i = Some r →
       Guild._roles g' !! i =
         Some (if decide (Role.position Admin < Role.position r)
               then Role.set_position (Role.position r - 1) r else r)) ∧
    (∀ i, Guild._roles three_roles !! i = None → Guild._roles g' !! i = None) ∧
    g' = Guild.set_roles (λ _, Guild._roles g') three_roles.
Proof.
  apply (proj1 remove_role_renumbers three_roles 2 Admin). reflexivity.
Defined.

(** C3 as stated fails: [_remove_role] of an id the guild does not have raises
    [KeyError]. *)
Lemma remove_unknown_role_raises :
  Guild._roles three_roles !! 7 = None ∧
  (Guild._remove_role 7 three_roles).1 = inl KeyError.
Proof. split; reflexivity. Qed.

(** C3 (as amended). [_remove_role] of a role id that is not in the role
    dictionary raises [KeyError] and leaves the guild, its role dictionary and
    every role's position included, as it was. *)
Theorem remove_unknown_role_keeps_guild (g : Guild.t) (role_id : Z) :
  Guild._roles g !! role_id = None →
  Guild._remove_role role_id g = (inl KeyError, g).
Proof.
  intros Hnone. unfold Guild._remove_role, Guild.pop_role, mbind, M_bind.
  by rewrite Hnone.
Qed.

Lemma remove_unknown_role_keeps_guild_witness :
  Guild._remove_role 7 three_roles = (inl KeyError, three_roles).
Proof. apply remove_unknown_role_keeps_guild. reflexivity. Defined.

(** ** Member-remove *)

(** C7. [_remove_member] of a member whose id is not in the member dictionary
    raises nothing and changes nothing: the guild afterwards is the guild
    before, its member dictionary and its cached member count included. *)
Theorem remove_unknown_member_is_noop (g : Guild.t) (member : Member.t) :
  Guild._members g !! Member.id member = None →
  ∃ g', Guild._remove_member member g = (inr tt, g') ∧
    g' = g ∧
    Guild._members g' = Guild._members g ∧
    Guild.attrs g' !! "_member_count" = Guild.attrs g !! "_member_count" ∧
    size (Guild._members g') = size (Guild._members g).
Proof.
  intros Hnone. exists g. split; [|done].
  unfold Guild._remove_member, modify, Guild.set_members.
  rewrite delete_id by done. by destruct g.
Qed.

(** Removing user 9 from a guild that caches only user 5. *)
Lemma remove_unknown_member_is_noop_witness :
  ∃ g', Guild._remove_member (Member.mk 9 PNone PNone) one_member = (inr tt, g') ∧
    g' = one_member ∧
    Guild._members g' = Guild._members one_member ∧
    Guild.attrs g' !! "_member_count" = Guild.attrs one_member !! "_member_count" ∧
    size (Guild._members g') = size (Guild._members one_member).
Proof. apply remove_unknown_member_is_noop. reflexivity. Defined.

Section voice.
Context (E : Env).

Lemma update_voice_state_run data channel_id g user_id channel :
  res_bind (py_int E) (dict_getitem data "user_id") = inr user_id →
  Guild.get_by_key (Guild._channels g) channel_id = inr channel →
  Guild._update_voice_state E data channel_id g =
    match Guild._voice_states g !! user_id with
    | Some prior =>
        let after := VoiceState._update data channel prior in
        (inr (Guild._members g !! user_id, prior, after),
         Guild.set_voice_states
           (match channel with
            | None => delete user_id
            | Some _ => <[user_id := after]>
            end) g)
    | None =>
        (inr (Guild._members g !! user_id,
              VoiceState.init data None, VoiceState.init data channel),
         Guild.set_voice_states <[user_id := VoiceState.init data channel]> g)
    end.
Proof.
  intros Huser Hchannel.
  unfold Guild._update_voice_state, Guild.get_channel, lift, try_except, mbind, M_bind.
  rewrite Huser, Hchannel.
  unfold Guild.pop_voice_state, Guild.getitem_voice_state.
  destruct channel as [c|], (Guild._voice_states g !! user_id) as [prior|] eqn:Hprior;
    simpl; rewrite ?Hprior; try done.
  all: destruct g; simpl in *; try done.
Qed.


(** What a voice-state update for a channel id that resolves to no channel
    does to the store: it evicts the user's state if there was one, and
    stores a new one if there was none. *)
Lemma update_voice_state_unknown_channel data channel_id g user_id :
  res_bind (py_int E) (dict_getitem data "user_id") = inr user_id →
  Guild.get_by_key (Guild._channels g) channel_id = inr None →
  ∃ r g', Guild._update_voice_state E data channel_id g = (inr r, g') ∧
    Guild._voice_states g' !! user_id =
      match Guild._voice_states g !! user_id with
      | Some _ => None
      | None => Some (VoiceState.init data None)
      end.
Proof.
  intros Huser Hchannel.
  rewrite (update_voice_state_run _ _ _ user_id None) by done.
  destruct (Guild._voice_states g !! user_id) as [prior|]; do 2 eexists; (split; [done|]).
  - apply lookup_delete_eq.
  - apply lookup_insert_eq.
Qed.
End voice.

(** ** Voice-state updates *)




(** C6 at the failing input: user 5 has no cached voice state and the event
    names no channel. The call returns, and the store now holds a state for
    user 5. *)
Theorem voice_state_leave_uncached_is_stored :
  Guild.get_channel PNone one_voice_channel = (inr None, one_voice_channel) ∧
  Guild._voice_states one_voice_channel !! 5 = None ∧
  ∃ r g',
    Guild._update_voice_state (sample_env 1) leave_voice PNone one_voice_channel = (inr r, g') ∧
    Guild._voice_states g' !! 5 = Some (VoiceState.init leave_voice None).
Proof.
  split; [reflexivity|]. split; [reflexivity|].
  do 2 eexists. split; reflexivity.
Qed.

(** ** Rebuilding a guild from a payload *)

Section monad_facts.
Context {S : Type}.

Lemma bind_inr {A B} (m : M S A) (k : A → M S B) s y s' :
  (m ≫= k) s = (inr y, s') → ∃ x s1, m s = (inr x, s1) ∧ k x s1 = (inr y, s').
Proof.
  unfold mbind, M_bind. destruct (m s) as [[e|x] s1]; [done|]. eauto.
Qed.

Lemma preserves_ret {A X} (f : S → X) (x : A) : preserves f (mret x).
Proof. by intros s r s' [= <- <-]. Qed.

Lemma preserves_raise {A X} (f : S → X) e : preserves f (raise (A := A) e).
Proof. by intros s r s' [= <- <-]. Qed.

Lemma preserves_lift {A X} (f : S → X) (r : result A) : preserves f (lift r).
Proof. by intros s r' s' [= <- <-]. Qed.

Lemma preserves_gets {A X} (f : S → X) (h : S → A) : preserves f (gets h).
Proof. by intros s r s' [= <- <-]. Qed.

Lemma preserves_modify {X} (f : S → X) (h : S → S) :
  (∀ s, f (h s) = f s) → preserves f (modify h).
Proof. intros Hh s r s' [= <- <-]. apply Hh. Qed.

Lemma preserves_bind {A B X} (f : S → X) (m : M S A) (k : A → M S B) :
  preserves f m → (∀ x, preserves f (k x)) → preserves f (m ≫= k).
Proof.
  intros Hm Hk s r s'. unfold mbind, M_bind.
  destruct (m s) as [[e|x] s1] eqn:Hms.
  - intros [= <- <-]. eauto.
  - intros Hks. rewrite (Hk _ _ _ _ Hks). eauto.
Qed.

Lemma preserves_try_except {A X} (f : S → X) (body handler : M S A) exc :
  preserves f body → preserves f handler → preserves f (try_except body exc handler).
Proof.
  intros Hb Hh s r s'. unfold try_except.
  destruct (body s) as [[e|x] s1] eqn:Hbs.
  - destruct (exc e).
    + intros Hhs. rewrite (Hh _ _ _ Hhs). eauto.
    + intros [= <- <-]. eauto.
  - intros [= <- <-]. eauto.
Qed.

Lemma preserves_for_each {A X} (f : S → X) (body : A → M S unit) l :
  (∀ x, preserves f (body x)) → preserves f (for_each body l).
Proof.
  intros Hb. induction l as [|x l IH]; simpl.
  - apply preserves_ret.
  - apply preserves_bind; auto.
Qed.
End monad_facts.

Ltac frame_step leaf :=
  lazymatch goal with
  | |- preserves _ (mret _) => apply preserves_ret
  | |- preserves _ (raise _) => apply preserves_raise
  | |- preserves _ (lift _) => apply preserves_lift
  | |- preserves _ (gets _) => apply preserves_gets
  | |- preserves _ (modify _) => apply preserves_modify; intros []; reflexivity
  | |- preserves _ (for_each _ _) => apply preserves_for_each; intros ?
  | |- preserves _ (try_except _ _ _) => apply preserves_try_except
  | |- preserves _ (_ ≫= _) => apply preserves_bind; [|intros ?]
  | |- preserves _ (match ?x with _ => _ end) => destruct x
  | |- _ => leaf
  end.

Section from_data_facts.
Context (E : Env).

Lemma get_channel_preserves {X} (f : Guild.t → X) channel_id :
  preserves f (Guild.get_channel channel_id).
Proof. by intros s r s' [= <- <-]. Qed.

Lemma getitem_voice_state_preserves {X} (f : Guild.t → X) user_id :
  preserves f (Guild.getitem_voice_state user_id).
Proof.
  intros s r s'. unfold Guild.getitem_voice_state.
  by destruct (_ !! _); intros [= <- <-].
Qed.

Lemma getattr_preserves {X} (f : Guild.t → X) slot :
  preserves f (Guild.getattr slot).
Proof.
  intros s r s'. unfold Guild.getattr.
  by destruct (_ !! _); intros [= <- <-].
Qed.

Lemma pop_voice_state_attrs user_id :
  preserves Guild.attrs (Guild.pop_voice_state user_id).
Proof.
  intros s r s'. unfold Guild.pop_voice_state.
  by destruct (_ !! _); intros [= <- <-].
Qed.

Lemma setattr_other (k slot : string) v :
  k ≠ slot → preserves (λ g, Guild.attrs g !! k) (Guild.setattr slot v).
Proof.
  intros Hne s r s' [= <- <-]. simpl. by rewrite lookup_insert_ne.
Qed.

Ltac leaf :=
  first [ apply get_channel_preserves | apply getitem_voice_state_preserves
        | apply getattr_preserves | apply pop_voice_state_attrs
        | apply setattr_other; done ].

Ltac frame := repeat frame_step leaf.

Lemma update_voice_state_attrs data channel_id :
  preserves Guild.attrs (Guild._update_voice_state E data channel_id).
Proof. unfold Guild._update_voice_state, Guild.get_member. frame. Qed.

Lemma sync_attrs k data :
  k ≠ "_large" → preserves (λ g, Guild.attrs g !! k) (Guild._sync E data).
Proof.
  intros Hk. unfold Guild._sync, Guild.get_member, Guild._add_channel. frame.
Qed.

Lemma from_data_attrs guild g g' :
  Guild._from_data E guild g = (inr tt, g') →
  ∃ id system_channel_id large owner_id,
    res_bind (py_int E) (dict_getitem guild "id") = inr id ∧
    _get_as_snowflake E guild "system_channel_id" = inr system_channel_id ∧
    _get_as_snowflake E guild "owner_id" = inr owner_id ∧
    (if is_None (dict_get guild "member_count" PNone) then large = PNone
     else ∃ count b,
       (if truthy (dict_get guild "member_count" PNone)
        then Some (dict_get guild "member_count" PNone)
        else Guild.attrs g !! "_member_count") = Some count ∧
       py_ge count 250 = inr b ∧ large = PBool b) ∧
    Guild.attrs g' =
      Guild.attrs_from_data E guild id system_channel_id large owner_id (Guild.attrs g).
Proof.
  intros H. unfold Guild._from_data in H. cbv zeta in H.
  repeat (let x := fresh "x" in let g1 := fresh "g" in let H1 := fresh "Hstep" in
          apply bind_inr in H as (x & g1 & H1 & H)).
  (* the loops and [_sync] *)
  apply (preserves_for_each Guild.attrs) in H;
    [|intros ?; repeat frame_step ltac:(apply update_voice_state_attrs)].
  apply (preserves_for_each Guild.attrs) in Hstep20;
    [|intros ?; unfold Guild._add_member; frame].
  apply (preserves_for_each Guild.attrs) in Hstep11; [|intros ?; frame].
  assert (∀ k, k ≠ "_large" → Guild.attrs g22 !! k = Guild.attrs g21 !! k) as Hsync.
  { intros k Hk. by apply (sync_attrs k guild Hk _ _ _ Hstep21). }
  clear Hstep21.
  (* the two conditionals *)
  assert (Guild.attrs g0 =
            if truthy (dict_get guild "member_count" PNone)
            then <["_member_count" := dict_get guild "member_count" PNone]> (Guild.attrs g)
            else Guild.attrs g) as Hg0.
  { destruct (truthy _); by inversion Hstep. }
  clear Hstep.
  assert (g23 = g22 ∧
          if is_None (dict_get guild "member_count" PNone) then x22 = PNone
          else ∃ count b, Guild.attrs g22 !! "_member_count" = Some count ∧
                          py_ge count 250 = inr b ∧ x22 = PBool b) as [-> Hlarge].
  { destruct (is_None _).
    - by inversion Hstep22.
    - apply bind_inr in Hstep22 as (count & s1 & Hcount & Hstep22).
      apply bind_inr in Hstep22 as (b & s2 & Hb & Hstep22).
      unfold Guild.getattr in Hcount.
      destruct (Guild.attrs g22 !! "_member_count") as [c|] eqn:Hc; [|done].
      unfold lift in Hb. simplify_eq. inversion Hstep22; subst.
      split; [done|]. by exists count, b. }
  clear Hstep22.
  unfold Guild.setattr, modify, lift, Guild.get_channel in *.
  simplify_eq/=.
  exists x7, x17, x22, x24. repeat split; try done.
  - destruct (is_None _); [done|].
    destruct Hlarge as (count & b & Hcount & Hb & ->). exists count, b.
    repeat split; try done.
    rewrite Hsync, Hstep20 in Hcount by done. simpl in Hcount.
    rewrite Hstep11 in Hcount. simpl in Hcount.
    rewrite Hg0 in Hcount.
    rewrite !lookup_insert_ne in Hcount by done.
    destruct (truthy _); [by rewrite lookup_insert_eq in Hcount|done].
  - rewrite H. simpl. unfold Guild.attrs_from_data. cbv zeta.
    apply map_eq. intros k.
    destruct (decide (k = "owner_id")) as [->|]; [by rewrite !lookup_insert_eq|].
    rewrite !(lookup_insert_ne _ "owner_id") by done.
    destruct (decide (k = "_large")) as [->|]; [by rewrite !lookup_insert_eq|].
    rewrite !(lookup_insert_ne _ "_large") by done.
    rewrite Hsync, Hstep20 by done. simpl.
    by rewrite Hstep11; simpl; rewrite Hg0.
Qed.
Lemma preserves_compose {A X Y} (f : Guild.t → X) (h : X → Y) (m : M Guild.t A) :
  preserves f m → preserves (λ g, h (f g)) m.
Proof. intros Hm s r s' Hrun. by rewrite (Hm _ _ _ Hrun). Qed.

Lemma bind_setattr {B} slot v (k : unit → M Guild.t B) g :
  (Guild.setattr slot v ≫= k) g = k tt (Guild.set_attrs <[slot := v]> g).
Proof. reflexivity. Qed.

Lemma bind_setattr_if {B} (b : bool) slot v (k : unit → M Guild.t B) g :
  ((if b then Guild.setattr slot v else mret tt) ≫= k) g
    = k tt (Guild.set_attrs (λ m, if b then <[slot := v]> m else m) g).
Proof. destruct b; [reflexivity|]. by destruct g. Qed.

Lemma attrs_set_attrs f g : Guild.attrs (Guild.set_attrs f g) = f (Guild.attrs g).
Proof. by destruct g. Qed.

(** However a run ends, the slots assigned before the id is read hold what
    they were given there: nothing after that point assigns them again. *)
Lemma from_data_before_id guild g r g' k :
  Guild._from_data E guild g = (r, g') →
  k ∉ ["id"; "mfa_level"; "features"; "splash"; "_system_channel_id"; "_large"; "owner_id"] →
  Guild.attrs g' !! k = Guild.attrs_before_id E guild (Guild.attrs g) !! k.
Proof.
  intros H Hk.
  assert (k ≠ "id" ∧ k ≠ "mfa_level" ∧ k ≠ "features" ∧ k ≠ "splash" ∧
          k ≠ "_system_channel_id" ∧ k ≠ "_large" ∧ k ≠ "owner_id")
    as (? & ? & ? & ? & ? & ? & ?) by set_solver.
  unfold Guild._from_data in H. cbv zeta in H.
  rewrite bind_setattr_if in H. rewrite !bind_setattr in H.
  match type of H with
  | ?m ?s = _ => assert (preserves (λ g, Guild.attrs g !! k) m) as Hrest
  end.
  { unfold Guild._add_member.
    repeat frame_step ltac:(first
      [ apply setattr_other; done
      | apply sync_attrs; done
      | apply getattr_preserves
      | apply get_channel_preserves
      | apply (preserves_compose Guild.attrs (λ m, m !! k)), update_voice_state_attrs ]). }
  rewrite (Hrest _ _ _ H). rewrite !attrs_set_attrs.
  unfold Guild.attrs_before_id. cbv zeta. by destruct (truthy _).
Qed.
End from_data_facts.


Lemma from_payload_absent (E : Env) (guild : pydict) (slot : string) :
  dict_lookup guild slot = None →
  Guild.from_payload E guild slot = Guild.from_payload E [] slot.
Proof. intros Hnone. unfold Guild.from_payload, dict_get. by rewrite Hnone. Qed.

Lemma attrs_from_data_scalar (E : Env) guild id sys large owner old slot :
  slot ∈ Guild.scalar_slots →
  Guild.attrs_from_data E guild id sys large owner old !! slot
    = Some (Guild.from_payload E guild slot).
Proof.
  intros Hslot. unfold Guild.scalar_slots in Hslot.
  repeat (apply elem_of_cons in Hslot as [->|Hslot]); [..|by apply elem_of_nil in Hslot].
  all: unfold Guild.attrs_from_data; cbv zeta.
  all: rewrite !lookup_insert_ne by done; by rewrite lookup_insert_eq.
Qed.

Lemma attrs_from_data_member_count (E : Env) guild id sys large owner old :
  Guild.attrs_from_data E guild id sys large owner old !! "_member_count" =
    if truthy (dict_get guild "member_count" PNone)
    then Some (dict_get guild "member_count" PNone)
    else old !! "_member_count".
Proof.
  unfold Guild.attrs_from_data; cbv zeta.
  rewrite !lookup_insert_ne by done.
  destruct (truthy _); [by rewrite lookup_insert_eq|done].
Qed.

Lemma attrs_from_data_large (E : Env) guild id sys large owner old :
  Guild.attrs_from_data E guild id sys large owner old !! "_large" = Some large.
Proof.
  unfold Guild.attrs_from_data; cbv zeta.
  rewrite !lookup_insert_ne by done. by rewrite lookup_insert_eq.
Qed.

Lemma from_data_first_slots (E : Env) (guild : pydict) (g g' : Guild.t) (r : result unit)
    (slot : string) :
  Guild._from_data E guild g = (r, g') → slot ∈ Guild.first_slots →
  Guild.attrs g' !! slot = Some (Guild.from_payload E guild slot).
Proof.
  intros Hrun Hslot. unfold Guild.first_slots in Hslot.
  repeat (apply elem_of_cons in Hslot as [->|Hslot]); [..|by apply elem_of_nil in Hslot].
  all: rewrite (from_data_before_id E guild g r g') by (done || set_solver).
  all: unfold Guild.attrs_before_id; cbv zeta.
  all: rewrite ?lookup_insert_ne by done; by rewrite lookup_insert_eq.
Qed.

Lemma from_data_member_count_kept (E : Env) (guild : pydict) (g g' : Guild.t)
    (r : result unit) :
  Guild._from_data E guild g = (r, g') → dict_lookup guild "member_count" = None →
  Guild.attrs g' !! "_member_count" = Guild.attrs g !! "_member_count".
Proof.
  intros Hrun Hnone. rewrite (from_data_before_id E guild g r g') by (done || set_solver).
  unfold Guild.attrs_before_id; cbv zeta.
  rewrite !lookup_insert_ne by done. unfold dict_get. by rewrite Hnone.
Qed.

(** C4 (as amended). [_from_data] overwrites the scalar fields from the
    payload; it does not merge. However a run ends, with or without an
    exception, the seven scalars assigned before the id is read ([name],
    [region], [verification_level], [explicit_content_filter], [afk_timeout],
    [icon], [unavailable]) hold what the payload gives, and after a run that
    raises nothing so do [mfa_level], [features] and [splash]. A field whose
    key the payload lacks is set to the value an empty payload gives it
    ([None]; [False] for [unavailable]; the empty list for [features]; the
    enumeration value of 0 for [explicit_content_filter]), whatever it held
    before. Only the cached member count keeps its prior value when the
    payload has no [member_count]. *)
Theorem from_data_overwrites_scalars (E : Env) (guild : pydict) (g g' : Guild.t)
    (r : result unit) :
  Guild._from_data E guild g = (r, g') →
  (∀ slot, slot ∈ Guild.first_slots ∨ (r = inr tt ∧ slot ∈ Guild.scalar_slots) →
     Guild.attrs g' !! slot = Some (Guild.from_payload E guild slot) ∧
     (dict_lookup guild slot = None →
        Guild.attrs g' !! slot = Some (Guild.from_payload E [] slot))) ∧
  (dict_lookup guild "member_count" = None →
     Guild.attrs g' !! "_member_count" = Guild.attrs g !! "_member_count").
Proof.
  intros Hrun. split; [|by apply (from_data_member_count_kept E guild g g' r)].
  intros slot Hslot.
  assert (Guild.attrs g' !! slot = Some (Guild.from_payload E guild slot)) as Hset.
  { destruct Hslot as [Hfirst|[-> Hscalar]].
    - by apply (from_data_first_slots E guild g g' r).
    - destruct (from_data_attrs E guild g g' Hrun)
        as (id & sys & large & owner & _ & _ & _ & _ & ->).
      by apply attrs_from_data_scalar. }
  split; [done|].
  intros Hnone. by rewrite <-(from_payload_absent E guild).
Qed.

(** The populated guild: the payload with only the icon runs to its end and
    sets the name it lacks to [None]; the payload without an id raises, and
    the name it carries is stored all the same. *)
Lemma from_data_overwrites_scalars_witness :
  Guild.attrs (Guild._from_data (sample_env 1) icon_only populated).2 !! "name"
    = Some (Guild.from_payload (sample_env 1) [] "name") ∧
  (Guild._from_data (sample_env 1) no_id populated).1 = inl KeyError ∧
  Guild.attrs (Guild._from_data (sample_env 1) no_id populated).2 !! "name"
    = Some (Guild.from_payload (sample_env 1) no_id "name").
Proof.
  split; [|split; [vm_compute; reflexivity|]].
  - refine (proj2 (proj1 (from_data_overwrites_scalars (sample_env 1) icon_only
                            populated _ (inr tt) _) "name" _) _).
    + vm_compute. reflexivity.
    + right. split; [reflexivity|]. unfold Guild.scalar_slots. apply elem_of_cons. by left.
    + reflexivity.
  - refine (proj1 (proj1 (from_data_overwrites_scalars (sample_env 1) no_id
                            populated _ (inl KeyError) _) "name" _)).
    + vm_compute. reflexivity.
    + left. unfold Guild.first_slots. apply elem_of_cons. by left.
Defined.

(** C4 as stated fails: a guild every scalar field of which holds a value
    receives the payload with only the icon, and ends with its name, region,
    AFK timeout and verification level cleared. *)
Lemma from_data_clears_absent_name :
  ∃ g g',
    Guild.__init__ (sample_env 1) full_snapshot = (inr tt, g) ∧
    (∀ slot, slot ∈ Guild.scalar_slots →
       ∃ v, Guild.attrs g !! slot = Some v ∧ v ≠ PNone) ∧
    Guild.attrs g !! "name" = Some (PStr "G") ∧
    dict_lookup icon_only "name" = None ∧
    Guild._from_data (sample_env 1) icon_only g = (inr tt, g') ∧
    Guild.attrs g' !! "name" = Some PNone ∧
    Guild.attrs g' !! "region" = Some PNone ∧
    Guild.attrs g' !! "afk_timeout" = Some PNone ∧
    Guild.attrs g' !! "verification_level" = Some PNone.
Proof.
  do 2 eexists. split; [vm_compute; reflexivity|]. split.
  { intros slot Hslot. unfold Guild.scalar_slots in Hslot.
    repeat (apply elem_of_cons in Hslot as [->|Hslot]); [..|by apply elem_of_nil in Hslot].
    all: eexists; split; [reflexivity|discriminate]. }
  split; [reflexivity|]. split; [reflexivity|].
  split; [vm_compute; reflexivity|]. repeat split; reflexivity.
Qed.

(** ** The large flag *)

(** A payload without [member_count] (or with [None] for it) leaves [_large]
    at [None]. *)
Lemma from_data_large_undetermined (E : Env) (guild : pydict) (g g' : Guild.t) :
  Guild._from_data E guild g = (inr tt, g') →
  dict_get guild "member_count" PNone = PNone →
  Guild.attrs g' !! "_large" = Some PNone.
Proof.
  intros Hrun Hmc.
  destruct (from_data_attrs E guild g g' Hrun)
    as (id & sys & large & owner & _ & _ & _ & Hlarge & ->).
  rewrite attrs_from_data_large. rewrite Hmc in Hlarge. simpl in Hlarge. by subst.
Qed.

(** A payload whose [member_count] is a non-zero integer settles [_large] by
    comparing it with 250. *)
Lemma from_data_large_determined (E : Env) (guild : pydict) (g g' : Guild.t) (n : Z) :
  Guild._from_data E guild g = (inr tt, g') →
  dict_get guild "member_count" PNone = PInt n → n ≠ 0 →
  Guild.attrs g' !! "_large" = Some (PBool (250 <=? n)) ∧
  Guild.attrs g' !! "_member_count" = Some (PInt n).
Proof.
  intros Hrun Hmc Hn.
  destruct (from_data_attrs E guild g g' Hrun)
    as (id & sys & large & owner & _ & _ & _ & Hlarge & ->).
  rewrite attrs_from_data_large, attrs_from_data_member_count.
  rewrite Hmc in *. simpl in *.
  assert ((n =? 0) = false) as Hz by (by apply Z.eqb_neq).
  rewrite Hz in *. simpl in *.
  destruct Hlarge as (count & b & [= <-] & [= <-] & ->). done.
Qed.

(** The [large] property on an undetermined flag: the member count if the
    guild has one, else the number of cached members, against 250. *)
Lemma large_undetermined (g : Guild.t) :
  Guild.attrs g !! "_large" = Some PNone →
  Guild.large g =
    match Guild.attrs g !! "_member_count" with
    | Some count =>
        match py_ge count 250 with
        | inr b => (inr (PBool b), g)
        | inl e => (inl e, g)
        end
    | None => (inr (PBool (250 <=? Z.of_nat (size (Guild._members g)))), g)
    end.
Proof.
  intros Hlarge.
  unfold Guild.large, Guild.getattr, try_except, lift, gets, mbind, M_bind.
  rewrite Hlarge. simpl.
  destruct (Guild.attrs g !! "_member_count") as [count|]; [|done].
  by destruct count.
Qed.

Lemma large_determined (g : Guild.t) (v : pyval) :
  Guild.attrs g !! "_large" = Some v → is_None v = false →
  Guild.large g = (inr v, g).
Proof.
  intros Hlarge Hv. unfold Guild.large, Guild.getattr, mbind, M_bind.
  by rewrite Hlarge, Hv.
Qed.

(** C8 at the failing input: a payload whose [member_count] is 0. On a guild
    that was built with 300 members the rebuild keeps the old count and sets
    the flag from it, [True], where 0 >= 250 is [False]; building a new guild
    from the payload raises [AttributeError]. *)
Theorem from_data_member_count_zero :
  dict_lookup count_zero "member_count" = Some (PInt 0) ∧
  py_ge (PInt 0) 250 = inr false ∧
  (∃ g g',
     Guild.__init__ (sample_env 1) snapshot_300 = (inr tt, g) ∧
     Guild._from_data (sample_env 1) count_zero g = (inr tt, g') ∧
     Guild.attrs g' !! "_member_count" = Some (PInt 300) ∧
     Guild.attrs g' !! "_large" = Some (PBool true) ∧
     Guild.large g' = (inr (PBool true), g')) ∧
  (Guild.__init__ (sample_env 1) count_zero).1 = inl AttributeError.
Proof.
  split; [reflexivity|]. split; [reflexivity|]. split; [|reflexivity].
  do 2 eexists. split; [vm_compute; reflexivity|].
  split; [vm_compute; reflexivity|]. repeat split; reflexivity.
Qed.

(** ** Snowflakes *)

(** The operand of [snowflake_time] for a 64-bit id: its top 42 bits, taken as
    milliseconds, past the Discord epoch. *)
Lemma snowflake_millis_top_bits (id : Z) :
  0 ≤ id < 2 ^ 64 →
  snowflake_millis id = id `div` 2 ^ 22 + DISCORD_EPOCH ∧
  0 ≤ id ≫ 22 < 2 ^ 42.
Proof.
  intros Hid. unfold snowflake_millis. rewrite Z.shiftr_div_pow2 by lia.
  split; [done|]. split.
  - apply Z.div_pos; lia.
  - apply Z.div_lt_upper_bound; lia.
Qed.

(** *** [snowflake_time]

    The quotient [millis / 1000] is followed through the float division
    bit by bit; what [utcfromtimestamp] makes of its fraction depends only on
    the millisecond within the second and on the binade of the quotient, and
    is evaluated for each of them. *)

Section binary64.
Import SpecFloat.

(** The number of binary digits of a mantissa, from its size. *)
Lemma digits2_bounds (p : positive) :
  2 ^ (Zpos (digits2_pos p) - 1) ≤ Zpos p < 2 ^ Zpos (digits2_pos p).
Proof.
  induction p as [p IH|p IH|]; cbn [digits2_pos]; [| |simpl; lia].
  all: rewrite Pos2Z.inj_succ; [rewrite (Pos2Z.inj_xI p) || rewrite (Pos2Z.inj_xO p)].
  all: replace (Z.succ (Zpos (digits2_pos p)) - 1)
         with (Z.succ (Zpos (digits2_pos p) - 1)) by lia.
  all: rewrite !Z.pow_succ_r by lia.
  all: revert IH; generalize (2 ^ (Zpos (digits2_pos p) - 1)) (2 ^ Zpos (digits2_pos p))
         (Zpos p); intros; lia.
Qed.

Lemma pow2_interval_unique (a b x : Z) :
  0 < a → 0 < b → 2 ^ (a - 1) ≤ x < 2 ^ a → 2 ^ (b - 1) ≤ x < 2 ^ b → a = b.
Proof.
  intros Ha Hb [Hal Hah] [Hbl Hbh].
  destruct (Z.lt_trichotomy a b) as [Hlt|[Heq|Hgt]]; [exfalso|done|exfalso].
  - assert (2 ^ a ≤ 2 ^ (b - 1)) by (apply Z.pow_le_mono_r; lia). lia.
  - assert (2 ^ b ≤ 2 ^ (a - 1)) by (apply Z.pow_le_mono_r; lia). lia.
Qed.

Lemma digits2_eq (p : positive) (d : Z) :
  0 < d → 2 ^ (d - 1) ≤ Zpos p < 2 ^ d → Zpos (digits2_pos p) = d.
Proof.
  intros Hd Hp. apply (pow2_interval_unique _ _ (Zpos p)); [lia|done| |done].
  apply digits2_bounds.
Qed.

Lemma div_eucl_pair (a b : Z) : Z.div_eucl a b = (a / b, a mod b).
Proof. unfold Z.div, Z.modulo. by destruct (Z.div_eucl a b). Qed.

Lemma loc_shr_record (m : Z) (l : location) :
  loc_of_shr_record (shr_record_of_loc m l) = l.
Proof. by destruct l as [|[]]. Qed.

Lemma shr_m_record (m : Z) (l : location) : shr_m (shr_record_of_loc m l) = m.
Proof. by destruct l as [|[]]. Qed.

(** Rounding a mantissa of 53 digits, or of 54, to the format: no shift, or a
    shift by one digit, then the step to the nearest. *)
Lemma round_53 (m : Z) (e : Z) (l : location) (M : positive) :
  Zdigits2 m = 53 → round_nearest_even m l = Zpos M → Zpos (digits2_pos M) = 53 →
  -1074 ≤ e ≤ 971 →
  binary_round_aux float.prec float.emax false m e l = S754_finite false M e.
Proof.
  intros Hd HM HdM He. unfold binary_round_aux, shr_fexp. rewrite Hd.
  replace (fexp float.prec float.emax (53 + e) - e) with 0
    by (unfold fexp, emin, float.prec, float.emax; lia).
  cbn [shr]. rewrite shr_m_record, loc_shr_record, HM. cbn [Zdigits2]. rewrite HdM.
  replace (fexp float.prec float.emax (53 + e) - e) with 0
    by (unfold fexp, emin, float.prec, float.emax; lia).
  cbn [shr shr_record_of_loc shr_m].
  destruct (Z.leb_spec e (float.emax - float.prec)) as [_|Hgt]; [done|].
  unfold float.prec, float.emax in Hgt. lia.
Qed.

Lemma round_54 (m : Z) (e : Z) (l : location) (M : positive) :
  Zdigits2 m = 54 →
  round_nearest_even (shr_m (shr_1 (shr_record_of_loc m l)))
    (loc_of_shr_record (shr_1 (shr_record_of_loc m l))) = Zpos M →
  Zpos (digits2_pos M) = 53 → -1074 ≤ e → e + 1 ≤ 971 →
  binary_round_aux float.prec float.emax false m e l = S754_finite false M (e + 1).
Proof.
  intros Hd HM HdM He1 He2. unfold binary_round_aux, shr_fexp. rewrite Hd.
  replace (fexp float.prec float.emax (54 + e) - e) with 1
    by (unfold fexp, emin, float.prec, float.emax; lia).
  cbn [shr iter_pos]. rewrite HM. cbn [Zdigits2]. rewrite HdM.
  replace (fexp float.prec float.emax (53 + (e + 1)) - (e + 1)) with 0
    by (unfold fexp, emin, float.prec, float.emax; lia).
  cbn [shr shr_record_of_loc shr_m].
  destruct (Z.leb_spec (e + 1) (float.emax - float.prec)) as [_|Hgt]; [done|].
  unfold float.prec, float.emax in Hgt. lia.
Qed.

Lemma iter_xO (p k : positive) : Zpos (Pos.iter xO p k) = Zpos p * 2 ^ Zpos k.
Proof.
  induction k as [|k IH] using Pos.peano_ind.
  - simpl. lia.
  - rewrite Pos.iter_succ, (Pos2Z.inj_xO (Pos.iter xO p k)), IH, Pos2Z.inj_succ.
    rewrite Z.pow_succ_r by lia. generalize (2 ^ Zpos k). intros; lia.
Qed.

(** An integer of fewer than 53 digits is exact as a float. *)
Lemma of_int_pos (p : positive) (d : Z) :
  Zpos (digits2_pos p) = d → d < 53 →
  ∃ mx, float.of_int (Zpos p) = S754_finite false mx (d - 53) ∧
        Zpos mx = Zpos p * 2 ^ (53 - d) ∧ Zpos (digits2_pos mx) = 53.
Proof.
  intros Hd Hlt. exists (Pos.iter xO p (Z.to_pos (53 - d))).
  assert (Zpos (Pos.iter xO p (Z.to_pos (53 - d))) = Zpos p * 2 ^ (53 - d)) as Hmx.
  { rewrite iter_xO. by rewrite Z2Pos.id by lia. }
  assert (Zpos (digits2_pos (Pos.iter xO p (Z.to_pos (53 - d)))) = 53) as Hdig.
  { apply digits2_eq; [lia|]. rewrite Hmx.
    pose proof (digits2_bounds p) as Hb. rewrite Hd in Hb.
    assert (0 < d) by lia.
    assert (2 ^ (53 - 1) = 2 ^ (d - 1) * 2 ^ (53 - d)) as ->
      by (rewrite <-Z.pow_add_r by lia; f_equal; lia).
    assert (2 ^ 53 = 2 ^ d * 2 ^ (53 - d)) as ->
      by (rewrite <-Z.pow_add_r by lia; f_equal; lia).
    assert (0 < 2 ^ (53 - d)) by (apply Z.pow_pos_nonneg; lia).
    split; [apply Z.mul_le_mono_nonneg_r; lia|apply Z.mul_lt_mono_pos_r; lia]. }
  split; [|done].
  unfold float.of_int, binary_normalize, binary_round, shl_align. rewrite Hd.
  replace (fexp float.prec float.emax (d + 0)) with (d - 53)
    by (unfold fexp, emin, float.prec, float.emax; lia).
  replace (d - 53 - 0) with (Zneg (Z.to_pos (53 - d))) by lia.
  apply round_53; [by cbn [Zdigits2]|done|done|lia].
Qed.

Lemma div_core (mx my : positive) (ex ey : Z) :
  Zpos (digits2_pos mx) = 53 → Zpos (digits2_pos my) = 53 → -1000 ≤ ex - ey ≤ 1000 →
  SFdiv_core_binary float.prec float.emax (Zpos mx) ex (Zpos my) ey =
    ((Zpos mx * 2 ^ 53) / Zpos my, ex - ey - 53,
     new_location (Zpos my) ((Zpos mx * 2 ^ 53) mod Zpos my)).
Proof.
  intros Hx Hy He. unfold SFdiv_core_binary. cbn [Zdigits2]. rewrite Hx, Hy. cbv zeta.
  replace (Z.min (fexp float.prec float.emax (53 + ex - (53 + ey))) (ex - ey))
    with (ex - ey - 53) by (unfold fexp, emin, float.prec, float.emax; lia).
  replace (ex - ey - (ex - ey - 53)) with 53 by lia.
  cbv iota. rewrite Z.shiftl_mul_pow2 by lia. by rewrite div_eucl_pair.
Qed.

Lemma Zdigits2_eq (m d : Z) : 0 < d → 2 ^ (d - 1) ≤ m < 2 ^ d → Zdigits2 m = d.
Proof.
  intros Hd Hm. assert (0 < 2 ^ (d - 1)) by (apply Z.pow_pos_nonneg; lia).
  destruct m as [|p|p]; [lia| |lia]. by apply digits2_eq.
Qed.

Lemma shr_1_round (Q : Z) (l : location) :
  0 < Q →
  round_nearest_even (shr_m (shr_1 (shr_record_of_loc Q l)))
    (loc_of_shr_record (shr_1 (shr_record_of_loc Q l))) =
    if Z.even Q then Z.div2 Q
    else match l with
         | loc_Exact => if Z.even (Z.div2 Q) then Z.div2 Q else Z.div2 Q + 1
         | loc_Inexact _ => Z.div2 Q + 1
         end.
Proof.
  intros HQ. destruct Q as [|[q|q|]|]; [lia| | | |lia]; by destruct l as [|[]].
Qed.

Lemma of_int_1000 : float.of_int 1000 = S754_finite false 8796093022208000 (-43).
Proof. reflexivity. Qed.

Ltac eval_pows :=
  repeat match goal with
  | H : context [2 ^ ?e] |- _ =>
      let v := eval vm_compute in (2 ^ e) in change (2 ^ e) with v in H
  | |- context [2 ^ ?e] =>
      let v := eval vm_compute in (2 ^ e) in change (2 ^ e) with v
  end.

(** The float quotient of [n] by 1000, for [n] of 41 to 43 digits and a
    quotient whose unit in the last place is [2 ** -j]: the multiple of that
    unit nearest to [n / 1000]. No quotient lies half-way between two floats,
    since [n * 2 ** j] is a multiple of 8 and 500 is not. *)
Lemma truediv_1000 (n d j : Z) :
  (d = 41 ∨ d = 42 ∨ d = 43) → 2 ^ (d - 1) ≤ n < 2 ^ d →
  (j = 63 - d ∨ j = 62 - d) →
  1000 * 2 ^ 52 ≤ n * 2 ^ j < 1000 * 2 ^ 53 →
  float.truediv n 1000 = S754_finite false (Z.to_pos ((n * 2 ^ j + 500) / 1000)) (- j).
Proof.
  intros Hd Hn Hj Hbin.
  assert (0 < n) as Hpos.
  { assert (0 < 2 ^ (d - 1)) by (apply Z.pow_pos_nonneg; lia). lia. }
  destruct n as [|p|p]; [lia| |lia]. clear Hpos.
  unfold float.truediv.
  destruct (of_int_pos p d) as (mx & -> & Hmx & Hdx);
    [by apply digits2_eq; [lia|]|lia|].
  rewrite of_int_1000. cbn [SFdiv].
  rewrite div_core; [|done|reflexivity|lia]. cbn beta iota. cbn [xorb].
  set (Q := Zpos mx * 2 ^ 53 / 8796093022208000).
  set (R := (Zpos mx * 2 ^ 53) mod 8796093022208000).
  assert (Zpos mx * 2 ^ 53 = 8796093022208000 * Q + R ∧ 0 ≤ R < 8796093022208000)
    as [HQR HR].
  { unfold Q, R. split; [apply Z.div_mod; lia|apply Z.mod_pos_bound; lia]. }
  clearbody Q R.
  assert (new_location 8796093022208000 R =
            if R =? 0 then loc_Exact
            else loc_Inexact (2 * R ?= 8796093022208000)) as -> by reflexivity.
  set (M := (Zpos p * 2 ^ j + 500) / 1000).
  assert (1000 * M ≤ Zpos p * 2 ^ j + 500 < 1000 * M + 1000) as HM.
  { unfold M. pose proof (Z.div_mod (Zpos p * 2 ^ j + 500) 1000).
    pose proof (Z.mod_pos_bound (Zpos p * 2 ^ j + 500) 1000). lia. }
  clearbody M.
  destruct Hd as [-> | [-> | ->]], Hj as [-> | ->]; eval_pows.
  all: match goal with
       | |- context [S754_finite false _ ?e] =>
           let v := eval vm_compute in e in change e with v
       end.
  all: match goal with
       | |- binary_round_aux _ _ _ _ ?e _ = _ =>
           let v := eval vm_compute in e in change e with v
       end.
  all: destruct M as [|M|M]; [lia| |lia]; cbn [Z.to_pos].
  all: assert (∀ c, (if R =? 0 then loc_Exact else loc_Inexact c) = loc_Exact → R = 0)
         as Hexact by (intros c; destruct (Z.eqb_spec R 0); [done|discriminate]).
  1,3,5: apply round_53;
    [ apply Zdigits2_eq; [lia|]; eval_pows; lia
    | destruct (Z.eqb_spec R 0);
      [|destruct (Z.compare_spec (2 * R) 8796093022208000)];
      cbn [round_nearest_even]; [lia|exfalso; lia|lia|lia]
    | apply digits2_eq; [lia|]; eval_pows; lia
    | lia ].
  all: match goal with
       | |- _ = S754_finite false _ ?e =>
           let v := eval vm_compute in (e - 1) in
           apply (round_54 Q v)
       end;
    [ apply Zdigits2_eq; [lia|]; eval_pows; lia
    | rewrite shr_1_round by lia; rewrite Z.div2_div;
      pose proof (Zmod_even Q) as Heven;
      pose proof (Z.div_mod Q 2); pose proof (Z.mod_pos_bound Q 2);
      destruct (Z.even Q);
      [ lia
      | destruct (Z.eqb_spec R 0); [exfalso; lia|lia] ]
    | apply digits2_eq; [lia|]; eval_pows; lia
    | lia | lia ].
Qed.

(** Every millisecond of the second, in each of the three binades. *)
Lemma micros_all :
  forallb (λ j, forallb (float.micros_ok j) (seqZ 0 1000)) [20; 21; 22] = true.
Proof. vm_compute. reflexivity. Qed.

Lemma micros_of (j k : Z) :
  (j = 20 ∨ j = 21 ∨ j = 22) → 0 ≤ k < 1000 →
  float.round_half_even
    (SFmul float.prec float.emax
       (binary_normalize float.prec float.emax ((k * 2 ^ j + 500) / 1000) (- j) false)
       (float.of_int 1000000)) = Some (1000 * k).
Proof.
  intros Hj Hk. pose proof micros_all as Hall.
  rewrite forallb_forall in Hall.
  assert (forallb (float.micros_ok j) (seqZ 0 1000) = true) as Hjs.
  { apply Hall. destruct Hj as [-> | [-> | ->]]; simpl; auto. }
  rewrite forallb_forall in Hjs.
  assert (float.micros_ok j k = true) as Hok.
  { apply Hjs. apply list_elem_of_In, elem_of_seqZ. lia. }
  unfold float.micros_ok in Hok.
  destruct (float.round_half_even _) as [us|]; [|done].
  apply Z.eqb_eq in Hok. by subst.
Qed.

(** [utcfromtimestamp] on the float nearest to [s] seconds and [k]
    milliseconds. *)
Lemma utcfromtimestamp_of (M : positive) (j s k : Z) :
  (j = 20 ∨ j = 21 ∨ j = 22) → 0 ≤ s → 0 ≤ k < 1000 →
  Zpos M = s * 2 ^ j + (k * 2 ^ j + 500) / 1000 →
  float.utcfromtimestamp (S754_finite false M (- j)) = Some ((1000 * s + k) * 1000).
Proof.
  intros Hj Hs Hk HM.
  pose proof (micros_of j k Hj Hk) as Hus.
  assert (0 ≤ (k * 2 ^ j + 500) / 1000 < 2 ^ j) as Hf.
  { destruct Hj as [-> | [-> | ->]]; eval_pows; Z.div_mod_to_equations; lia. }
  unfold float.utcfromtimestamp, float.modf. cbn [cond_Zopp mbind option_bind].
  assert (Z.shiftl (Zpos M) (- j) = s) as ->.
  { rewrite Z.shiftl_div_pow2 by lia. rewrite Z.opp_involutive, HM.
    assert (0 < 2 ^ j) by (apply Z.pow_pos_nonneg; lia).
    rewrite Z.div_add_l by lia. rewrite Z.div_small by lia. lia. }
  rewrite Z.opp_involutive, Z.shiftl_mul_pow2 by lia.
  replace (Zpos M - s * 2 ^ j) with ((k * 2 ^ j + 500) / 1000) by lia.
  rewrite Hus. cbn [mbind option_bind].
  destruct (Z.leb_spec 1000000 (1000 * k)); [lia|].
  destruct (Z.ltb_spec (1000 * k) 0); [lia|]. f_equal. lia.
Qed.

Lemma snowflake_time_in_binade (n d j : Z) :
  (d = 41 ∨ d = 42 ∨ d = 43) → 2 ^ (d - 1) ≤ n < 2 ^ d →
  (j = 63 - d ∨ j = 62 - d) → (j = 20 ∨ j = 21 ∨ j = 22) →
  1000 * 2 ^ 52 ≤ n * 2 ^ j < 1000 * 2 ^ 53 →
  float.utcfromtimestamp (float.truediv n 1000) = Some (1000 * n).
Proof.
  intros Hd Hn Hdj Hj Hbin.
  rewrite (truediv_1000 n d j) by done.
  assert (0 < n) by (destruct Hj as [-> | [-> | ->]]; eval_pows; lia).
  rewrite (utcfromtimestamp_of _ j (n / 1000) (n mod 1000)).
  - f_equal. Z.div_mod_to_equations. lia.
  - done.
  - Z.div_mod_to_equations. lia.
  - Z.div_mod_to_equations. lia.
  - rewrite Z2Pos.id.
    + destruct Hj as [-> | [-> | ->]]; eval_pows; Z.div_mod_to_equations; lia.
    + destruct Hj as [-> | [-> | ->]]; eval_pows; Z.div_mod_to_equations; lia.
Qed.

(** C9. For every 64-bit unsigned id, [snowflake_time] returns the datetime
    that lies [(id >> 22) + 1420070400000] milliseconds after the Unix epoch,
    to the microsecond: neither the float division by 1000 nor the rounding
    of [utcfromtimestamp] moves it. *)
Theorem snowflake_time_recovers_millis (id : Z) :
  0 ≤ id < 2 ^ 64 →
  snowflake_time id = Some (1000 * ((id ≫ 22) + 1420070400000)).
Proof.
  intros Hid. change ((id ≫ 22) + 1420070400000) with (snowflake_millis id).
  unfold snowflake_time.
  assert (1420070400000 ≤ snowflake_millis id < 1420070400000 + 2 ^ 42) as Hn.
  { unfold snowflake_millis, DISCORD_EPOCH. rewrite Z.shiftr_div_pow2 by lia.
    eval_pows. Z.div_mod_to_equations. lia. }
  revert Hn. generalize (snowflake_millis id). clear id Hid. intros n Hn. eval_pows.
  destruct (Z.lt_ge_cases n 2147483648000);
    [apply (snowflake_time_in_binade n 41 22); eval_pows; lia|].
  destruct (Z.lt_ge_cases n 2199023255552);
    [apply (snowflake_time_in_binade n 41 21); eval_pows; lia|].
  destruct (Z.lt_ge_cases n 4294967296000);
    [apply (snowflake_time_in_binade n 42 21); eval_pows; lia|].
  destruct (Z.lt_ge_cases n 4398046511104);
    [apply (snowflake_time_in_binade n 42 20); eval_pows; lia|].
  apply (snowflake_time_in_binade n 43 20); eval_pows; lia.
Qed.
End binary64.

(** The id 175928847299117063 was made 1462015105796 milliseconds after the
    Unix epoch. *)
Lemma snowflake_time_recovers_millis_witness :
  snowflake_time 175928847299117063 = Some 1462015105796000.
Proof.
  apply (snowflake_time_recovers_millis 175928847299117063). split; by vm_compute.
Defined.

(** ** [SnowflakeList] *)

Lemma sorted_lookup_le (a : list Z) (j k : nat) (v w : Z) :
  StronglySorted Z.le a → (j ≤ k)%nat → a !! j = Some v → a !! k = Some w → v ≤ w.
Proof.
  intros Hs. revert j k. induction Hs as [|y a Hs IH Hy]; intros j k Hjk Hj Hk; [done|].
  destruct j as [|j], k as [|k]; simplify_eq/=; try lia.
  - rewrite Forall_forall in Hy. apply Hy. by eapply list_elem_of_lookup_2.
  - eapply (IH j k); [lia|done..].
Qed.

Lemma midpoint_range (lo hi : nat) :
  (lo < hi)%nat → (lo ≤ Nat.div (lo + hi) 2 < hi)%nat.
Proof.
  intros Hlt. pose proof (Nat.div_mod_eq (lo + hi) 2).
  pose proof (Nat.mod_upper_bound (lo + hi) 2). lia.
Qed.

Lemma bisect_loop_sorted (a : list Z) (x : Z) (lo hi : nat) :
  StronglySorted Z.le a → (lo ≤ hi ≤ length a)%nat →
  (∀ j v, (j < lo)%nat → a !! j = Some v → v < x) →
  (∀ j v, (hi ≤ j)%nat → a !! j = Some v → x ≤ v) →
  ∃ i, bisect_loop a x lo hi = inr i ∧ (lo ≤ i ≤ hi)%nat ∧
    (∀ j v, (j < i)%nat → a !! j = Some v → v < x) ∧
    (∀ j v, (i ≤ j)%nat → a !! j = Some v → x ≤ v).
Proof.
  intros Hs. funelim (bisect_loop a x lo hi).
  all: intros Hrange Hlo Hhi.
  - exists lo. split; [done|]. split; [lia|]. split; [done|].
    intros j v Hj. apply Hhi. lia.
  - exfalso. assert ((lo ≤ Nat.div (lo + hi) 2 < hi)%nat) as Hmid by (by apply midpoint_range).
    apply lookup_ge_None in Heq. lia.
  - assert ((lo ≤ Nat.div (lo + hi) 2 < hi)%nat) as Hmid by (by apply midpoint_range).
    destruct H as (i & Hi & Hr & Hbelow & Habove); [done|lia| |done|].
    + intros j w Hj Hw. assert (w ≤ v); [|lia].
      eapply (sorted_lookup_le a j (Nat.div (lo + hi) 2)); eauto. lia.
    + exists i. repeat split; try done; lia.
  - assert ((lo ≤ Nat.div (lo + hi) 2 < hi)%nat) as Hmid by (by apply midpoint_range).
    destruct H as (i & Hi & Hr & Hbelow & Habove); [done|lia|done| |].
    + intros j w Hj Hw. assert (v ≤ w); [|lia].
      eapply (sorted_lookup_le a (Nat.div (lo + hi) 2) j); eauto.
    + exists i. repeat split; try done; lia.
Qed.

Lemma bisect_left_sorted (a : list Z) (x : Z) :
  StronglySorted Z.le a →
  ∃ i, bisect_left a x = inr i ∧ (i ≤ length a)%nat ∧
    (∀ j v, (j < i)%nat → a !! j = Some v → v < x) ∧
    (∀ j v, (i ≤ j)%nat → a !! j = Some v → x ≤ v).
Proof.
  intros Hs. unfold bisect_left.
  destruct (bisect_loop_sorted a x 0 (length a)) as (i & Hi & Hr & Hbelow & Habove);
    [done|lia|lia| |].
  - intros j v Hj Hv. apply lookup_lt_Some in Hv. lia.
  - exists i. repeat split; try done; lia.
Qed.

(** The search never reads outside the array, sorted or not. *)
Lemma bisect_loop_total (a : list Z) (x : Z) (lo hi : nat) :
  (hi ≤ length a)%nat → ∃ i, bisect_loop a x lo hi = inr i.
Proof.
  funelim (bisect_loop a x lo hi); intros Hhi; eauto.
  - exfalso. assert ((lo ≤ Nat.div (lo + hi) 2 < hi)%nat) as Hmid by (by apply midpoint_range).
    apply lookup_ge_None in Heq. lia.
  - assert ((lo ≤ Nat.div (lo + hi) 2 < hi)%nat) as Hmid by (by apply midpoint_range). apply H. lia.
Qed.


Section snowflake_list.
Implicit Types (a : list Z) (x : Z).

Lemma elem_of_take_lookup a (i : nat) y :
  y ∈ take i a → ∃ j, (j < i)%nat ∧ a !! j = Some y.
Proof.
  intros [j Hj]%list_elem_of_lookup_1.
  apply lookup_take_Some in Hj as [Hj Hlt]. eauto.
Qed.

Lemma elem_of_drop_lookup a (i : nat) y :
  y ∈ drop i a → ∃ k, (i ≤ k)%nat ∧ a !! k = Some y.
Proof.
  intros [j Hj]%list_elem_of_lookup_1. rewrite lookup_drop in Hj.
  exists (i + j)%nat. split; [lia|done].
Qed.

Lemma insert_at_bisect_sorted a x (i : nat) :
  StronglySorted Z.le a →
  (∀ j v, (j < i)%nat → a !! j = Some v → v < x) →
  (∀ j v, (i ≤ j)%nat → a !! j = Some v → x ≤ v) →
  StronglySorted Z.le (take i a ++ x :: drop i a).
Proof.
  intros Hs Hbelow Habove.
  rewrite <-(take_drop i a) in Hs. apply StronglySorted_app in Hs as (Hle & Hl & Hr).
  apply StronglySorted_app_2; [|done|].
  - intros y z [j [Hj Hy]]%elem_of_take_lookup Hz.
    assert (y < x) by eauto.
    apply elem_of_cons in Hz as [->|[k [Hk Hz]]%elem_of_drop_lookup]; [lia|].
    assert (x ≤ z) by eauto. lia.
  - apply StronglySorted_cons. split; [|done].
    apply Forall_forall. intros z [k [Hk Hz]]%elem_of_drop_lookup. eauto.
Qed.

Lemma add_sorted a x :
  StronglySorted Z.le a → SnowflakeList.fits_Q x = true →
  ∃ a', SnowflakeList.add x a = inr a' ∧ StronglySorted Z.le a' ∧ a' ≡ₚ a ++ [x].
Proof.
  intros Hs Hx.
  destruct (bisect_left_sorted a x Hs) as (i & Hi & _ & Hbelow & Habove).
  unfold SnowflakeList.add, SnowflakeList.insert. rewrite Hi. simpl. rewrite Hx.
  eexists. split; [done|]. split; [by apply insert_at_bisect_sorted|].
  rewrite <-Permutation_middle, <-Permutation_cons_append.
  by rewrite take_drop.
Qed.

Lemma has_sorted a x :
  StronglySorted Z.le a →
  SnowflakeList.has x a = inr (bool_decide (x ∈ a)) ∧
  SnowflakeList.get x a = inr (if decide (x ∈ a) then Some x else None).
Proof.
  intros Hs.
  destruct (bisect_left_sorted a x Hs) as (i & Hi & Hlen & Hbelow & Habove).
  unfold SnowflakeList.has, SnowflakeList.get. rewrite Hi. simpl.
  assert (∀ k, a !! k = Some x → (i ≤ k)%nat) as Hat.
  { intros k Hk. destruct (decide (i ≤ k)%nat); [done|].
    assert (x < x) by (eapply Hbelow; [|done]; lia). lia. }
  destruct (a !! i) as [v|] eqn:Hv.
  - pose proof (lookup_lt_Some _ _ _ Hv). rewrite ?Hv.
    rewrite (bool_decide_eq_true_2 (i ≠ length a)) by lia. simpl.
    assert (v = x ↔ x ∈ a) as Hiff.
    { split.
      - intros <-. by eapply list_elem_of_lookup_2.
      - intros [k Hk]%list_elem_of_lookup_1.
        assert (v ≤ x) by (eapply (sorted_lookup_le a i k); eauto).
        assert (x ≤ v) by eauto. lia. }
    split.
    + f_equal. by apply bool_decide_ext.
    + destruct (decide (x ∈ a)) as [Hin|Hnin].
      * apply Hiff in Hin as ->. by rewrite bool_decide_eq_true_2.
      * rewrite bool_decide_eq_false_2; [done|]. by rewrite Hiff.
  - rewrite ?Hv. apply lookup_ge_None in Hv.
    rewrite (bool_decide_eq_false_2 (i ≠ length a)) by lia.
    assert (x ∉ a) as Hnotin.
    { intros [k Hk]%list_elem_of_lookup_1.
      pose proof (lookup_lt_Some _ _ _ Hk). specialize (Hat k Hk). lia. }
    split.
    + f_equal. by rewrite bool_decide_eq_false_2.
    + by rewrite decide_False.
Qed.
End snowflake_list.

Lemma forallb_fits (l : list Z) :
  Forall (λ x, 0 ≤ x < 2 ^ 64) l → forallb SnowflakeList.fits_Q l = true.
Proof.
  induction 1 as [|x l Hx _ IH]; [done|]. simpl. rewrite IH.
  unfold SnowflakeList.fits_Q.
  rewrite (proj2 (Z.leb_le _ _)), (proj2 (Z.ltb_lt _ _)) by lia. done.
Qed.

Lemma new_sorted (data : list Z) (is_sorted : bool) :
  (is_sorted = true → Sorted Z.le data) →
  Forall (λ x, 0 ≤ x < 2 ^ 64) data →
  ∃ a, SnowflakeList.__new__ data is_sorted = inr a ∧
    StronglySorted Z.le a ∧ a ≡ₚ data.
Proof.
  intros Hflag Hfits. unfold SnowflakeList.__new__. destruct is_sorted.
  - rewrite forallb_fits by done. exists data.
    split; [done|]. split; [|done]. apply Sorted_StronglySorted; [apply _|auto].
  - unfold SnowflakeList.sorted. rewrite forallb_fits.
    + eexists. split; [done|]. split.
      * apply StronglySorted_merge_sort; apply _.
      * apply merge_sort_Permutation.
    + by rewrite merge_sort_Permutation.
Qed.

Lemma add_all_sorted (adds a : list Z) :
  StronglySorted Z.le a → Forall (λ x, 0 ≤ x < 2 ^ 64) adds →
  ∃ a', SnowflakeList.add_all adds a = inr a' ∧
    StronglySorted Z.le a' ∧ a' ≡ₚ a ++ adds.
Proof.
  intros Hs Hfits. revert a Hs.
  induction Hfits as [|x adds Hx _ IH]; intros a Hs; simpl.
  - exists a. by rewrite app_nil_r.
  - destruct (add_sorted a x Hs) as (a1 & -> & Hs1 & Hp1).
    { unfold SnowflakeList.fits_Q.
      rewrite (proj2 (Z.leb_le _ _)), (proj2 (Z.ltb_lt _ _)) by lia. done. }
    simpl. destruct (IH a1 Hs1) as (a' & -> & Hs' & Hp').
    exists a'. split; [done|]. split; [done|].
    by rewrite Hp', Hp1, <-app_assoc.
Qed.

(** C10 (as amended). A [SnowflakeList] built from 64-bit ids, either with
    [is_sorted] left false on any collection or with [is_sorted] true on a
    collection that is in non-decreasing order, and then grown by [add] calls
    of 64-bit ids, is after every number of those calls in non-decreasing
    order and holds the initial ids and the added ones; on it [has(x)] is true
    exactly when [x] is stored, and [get(x)] is [x] when it is stored and
    [None] otherwise. *)
Theorem snowflake_list_sorted_and_searchable
    (data : list Z) (is_sorted : bool) (adds : list Z) (k : nat) :
  (is_sorted = true → Sorted Z.le data) →
  Forall (λ x, 0 ≤ x < 2 ^ 64) data →
  Forall (λ x, 0 ≤ x < 2 ^ 64) adds →
  ∃ a, res_bind (SnowflakeList.add_all (take k adds))
         (SnowflakeList.__new__ data is_sorted) = inr a ∧
    Sorted Z.le a ∧
    a ≡ₚ data ++ take k adds ∧
    ∀ x, SnowflakeList.has x a = inr (bool_decide (x ∈ a)) ∧
         SnowflakeList.get x a = inr (if decide (x ∈ a) then Some x else None).
Proof.
  intros Hflag Hdata Hadds.
  destruct (new_sorted data is_sorted Hflag Hdata) as (a0 & -> & Hs0 & Hp0).
  simpl. destruct (add_all_sorted (take k adds) a0 Hs0) as (a & -> & Hs & Hp).
  { by apply Forall_take. }
  exists a. split; [done|]. split; [by apply StronglySorted_Sorted|].
  split; [by rewrite Hp, Hp0|]. intros x. by apply has_sorted.
Qed.

(** An unsorted collection built with the default flag, then three adds. *)
Lemma snowflake_list_sorted_and_searchable_witness :
  ∃ a, res_bind (SnowflakeList.add_all (take 3 [5; 1; 9]))
         (SnowflakeList.__new__ [4; 2; 8] false) = inr a ∧
    Sorted Z.le a ∧
    a ≡ₚ [4; 2; 8] ++ take 3 [5; 1; 9] ∧
    ∀ x, SnowflakeList.has x a = inr (bool_decide (x ∈ a)) ∧
         SnowflakeList.get x a = inr (if decide (x ∈ a) then Some x else None).
Proof.
  apply snowflake_list_sorted_and_searchable.
  - discriminate.
  - repeat constructor; lia.
  - repeat constructor; lia.
Defined.

(** C10 as stated fails: built with [is_sorted=True] from a collection that
    is not sorted, the array is not sorted, and [has] and [get] miss an id it
    stores. *)
Lemma snowflake_list_flagged_unsorted :
  SnowflakeList.__new__ [3; 1] true = inr [3; 1] ∧
  ¬ Sorted Z.le [3; 1] ∧
  1 ∈ [3; 1] ∧
  SnowflakeList.has 1 [3; 1] = inr false ∧
  SnowflakeList.get 1 [3; 1] = inr None.
Proof.
  split; [reflexivity|]. split.
  - intros Hs. inversion Hs as [|? ? _ Hhd]; subst.
    inversion Hhd; subst. lia.
  - split; [set_solver|]. split; reflexivity.
Qed.

(** * Further properties *)

(** ** discord/utils.py *)

Lemma find_value_first (predicate : pyval → bool) l1 x l2 :
  predicate x = true → Forall (λ y, predicate y = false) l1 →
  utils.find_value predicate (l1 ++ x :: l2) = x.
Proof.
  intros Hx Hl1. induction Hl1 as [|y l1 Hy _ IH]; simpl.
  - by rewrite Hx.
  - by rewrite Hy.
Qed.

Lemma find_value_none (predicate : pyval → bool) seq :
  Forall (λ y, predicate y = false) seq → utils.find_value predicate seq = PNone.
Proof. induction 1 as [|y l Hy _ IH]; simpl; [done|]. by rewrite Hy. Qed.

Lemma find_value_is_none (predicate : pyval → bool) seq :
  utils.find_value predicate seq = PNone →
  Forall (λ y, predicate y = false) seq ∨
  ∃ l1 l2, seq = l1 ++ PNone :: l2 ∧ predicate PNone = true ∧
           Forall (λ y, predicate y = false) l1.
Proof.
  induction seq as [|y l IH]; simpl; [by left|].
  destruct (predicate y) eqn:Hy.
  - intros ->. right. exists [], l. by repeat split.
  - intros Hf. destruct (IH Hf) as [Hall|(l1 & l2 & -> & Hp & Hl1)].
    + left. by constructor.
    + right. exists (y :: l1), l2. repeat split; [done|]. by constructor.
Qed.

(** X1. [find] returns the first element of the sequence that meets the
    predicate, and [None] when no element meets it. The value returned is
    [None] exactly when no element meets the predicate or the first one that
    meets it is [None] itself: the caller cannot tell the two apart. On a
    sequence that does not hold [None], [None] is returned exactly when no
    element meets the predicate. *)
Theorem find_first (predicate : pyval → bool) (seq : list pyval) :
  (∀ l1 x l2, seq = l1 ++ x :: l2 → predicate x = true →
              Forall (λ y, predicate y = false) l1 →
              utils.find_value predicate seq = x) ∧
  (Forall (λ y, predicate y = false) seq → utils.find_value predicate seq = PNone) ∧
  (utils.find_value predicate seq = PNone ↔
     Forall (λ y, predicate y = false) seq ∨
     ∃ l1 l2, seq = l1 ++ PNone :: l2 ∧ predicate PNone = true ∧
              Forall (λ y, predicate y = false) l1) ∧
  (PNone ∉ seq →
     (utils.find_value predicate seq = PNone ↔ Forall (λ y, predicate y = false) seq)) ∧
  utils.find_value predicate seq = default PNone (utils.find predicate seq).
Proof.
  split; [|split; [|split; [|split]]].
  - intros l1 x l2 -> Hx Hl1. by apply find_value_first.
  - apply find_value_none.
  - split; [apply find_value_is_none|].
    intros [Hall|(l1 & l2 & -> & Hp & Hl1)]; [by apply find_value_none|].
    by apply find_value_first.
  - intros Hnotin. split; [|apply find_value_none]. intros Hf.
    destruct (find_value_is_none _ _ Hf) as [Hall|(l1 & l2 & -> & _ & _)]; [done|].
    exfalso. apply Hnotin. set_solver.
  - induction seq as [|y l IH]; simpl; [done|]. by destruct (predicate y).
Qed.

(** Asked for a [None] in the sequence 3, [None], [find] returns the [None]
    it found. *)
Lemma find_first_witness :
  utils.find_value is_None [PInt 3; PNone] = PNone ∧
  ¬ Forall (λ y, is_None y = false) [PInt 3; PNone].
Proof.
  split.
  - apply (proj1 (find_first is_None [PInt 3; PNone]) [PInt 3] PNone []); [done|done|].
    by repeat constructor.
  - intros Hall. apply Forall_cons in Hall as [_ Hall].
    apply Forall_cons in Hall as [Hnone _]. discriminate.
Defined.

Section unique.
Context {A : Type} {EqA : EqDecision A} {CountA : Countable A}.
Implicit Types (seen : gset A) (l : list A).

Lemma unique_from_elem_of seen l x :
  x ∈ utils._unique_from seen l ↔ x ∈ l ∧ x ∉ seen.
Proof.
  revert seen. induction l as [|y l IH]; intros seen; simpl.
  - set_solver.
  - case_decide.
    + rewrite IH. set_solver.
    + rewrite elem_of_cons, IH. destruct (decide (x = y)); set_solver.
Qed.

Lemma unique_from_NoDup seen l : NoDup (utils._unique_from seen l).
Proof.
  revert seen. induction l as [|y l IH]; intros seen; simpl.
  - constructor.
  - case_decide; [done|]. constructor; [|done].
    rewrite unique_from_elem_of. set_solver.
Qed.

Lemma unique_from_sublist seen l : utils._unique_from seen l `sublist_of` l.
Proof.
  revert seen. induction l as [|y l IH]; intros seen; simpl; [done|].
  case_decide.
  - by apply sublist_cons.
  - by apply sublist_skip.
Qed.

Lemma unique_from_filter seen seen' l :
  utils._unique_from (seen' ∪ seen) l
  = filter (λ x, x ∉ seen') (utils._unique_from seen l).
Proof.
  revert seen seen'. induction l as [|y l IH]; intros seen seen'; simpl; [done|].
  destruct (decide (y ∈ seen)) as [Hin|Hnin].
  - rewrite decide_True by set_solver. apply IH.
  - destruct (decide (y ∈ seen')) as [Hin'|Hnin'].
    + rewrite decide_True by set_solver.
      rewrite filter_cons_False by (by intros ?).
      rewrite <-IH. f_equal. set_solver.
    + rewrite decide_False by set_solver.
      rewrite filter_cons_True by done. f_equal.
      rewrite <-IH. f_equal. set_solver.
Qed.

Lemma unique_from_NoDup_id seen l :
  NoDup l → (∀ x, x ∈ l → x ∉ seen) → utils._unique_from seen l = l.
Proof.
  intros Hnd. revert seen. induction Hnd as [|y l Hy Hnd IH]; intros seen Hseen; simpl; [done|].
  rewrite decide_False by set_solver. f_equal. apply IH. set_solver.
Qed.

(** X2. [_unique] returns the elements of its input without repetition, in
    the order of their first occurrence: the result has no duplicates, has
    the same elements, is a subsequence of the input, and the head of the
    input is always kept, followed by the result for the rest with the head
    removed. An input without duplicates is returned as it is. *)
Theorem unique_first_occurrences l :
  NoDup (utils._unique l) ∧
  (∀ x, x ∈ utils._unique l ↔ x ∈ l) ∧
  utils._unique l `sublist_of` l ∧
  (∀ x l', l = x :: l' → utils._unique l = x :: filter (λ y, y ≠ x) (utils._unique l')) ∧
  (NoDup l → utils._unique l = l).
Proof.
  unfold utils._unique. split; [apply unique_from_NoDup|].
  split; [intros x; rewrite unique_from_elem_of; set_solver|].
  split; [apply unique_from_sublist|]. split.
  - intros x l' ->. simpl. rewrite decide_False by set_solver. f_equal.
    rewrite unique_from_filter. apply list_filter_iff. set_solver.
  - intros Hnd. apply unique_from_NoDup_id; set_solver.
Qed.
End unique.

(** On [3; 1; 3; 2] the result keeps 3 as head, then the rest without 3; the
    duplicate-free [3; 1; 2] is returned as it is. *)
Lemma unique_first_occurrences_witness :
  utils._unique [3; 1; 3; 2] = 3 :: filter (λ y, y ≠ 3) (utils._unique [1; 3; 2]) ∧
  utils._unique [3; 1; 2] = [3; 1; 2].
Proof.
  split.
  - apply (proj1 (proj2 (proj2 (proj2 (unique_first_occurrences [3; 1; 3; 2]))))).
    reflexivity.
  - apply (proj2 (proj2 (proj2 (proj2 (unique_first_occurrences [3; 1; 2]))))).
    apply (bool_decide_unpack _). by vm_compute.
Defined.

(** X3. [valid_icon_size] accepts exactly the powers of two from 16 to 2048:
    16, 32, 64, 128, 256, 512, 1024 and 2048. Zero, negative sizes and every
    other integer are refused. *)
Theorem valid_icon_size_powers (size : Z) :
  utils.valid_icon_size size = true ↔
  ∃ k, 4 ≤ k ≤ 11 ∧ size = 2 ^ k.
Proof.
  split.
  - intros Hvalid.
    assert (16 ≤ size < 2049) as Hrange.
    { unfold utils.valid_icon_size in Hvalid.
      apply andb_true_iff in Hvalid as [_ [Hlo Hhi]%andb_true_iff].
      apply Z.leb_le in Hlo. apply Z.ltb_lt in Hhi. lia. }
    assert (Forall (λ s, utils.valid_icon_size s = true →
                         s ∈ (λ k, 2 ^ k) <$> seqZ 4 8) (seqZ 16 2033)) as Hall.
    { apply Forall_forall. intros s Hs.
      assert (forallb (λ s, implb (utils.valid_icon_size s)
                              (bool_decide (s ∈ (λ k, 2 ^ k) <$> seqZ 4 8)))
                (seqZ 16 2033) = true) as Hb by (by vm_compute).
      rewrite forallb_forall in Hb. apply list_elem_of_In, Hb in Hs.
      intros Hv. rewrite Hv in Hs. simpl in Hs. by apply bool_decide_eq_true_1 in Hs. }
    rewrite Forall_forall in Hall.
    specialize (Hall size). rewrite elem_of_seqZ in Hall.
    pose proof (Hall ltac:(lia) Hvalid) as Hin.
    apply list_elem_of_fmap in Hin as [k [-> Hk]].
    apply elem_of_seqZ in Hk. exists k. split; [lia|done].
  - intros (k & Hk & ->).
    assert (Forall (λ k, utils.valid_icon_size (2 ^ k) = true) (seqZ 4 8)) as Hall
      by (vm_compute; repeat constructor).
    rewrite Forall_forall in Hall. apply Hall, elem_of_seqZ. lia.
Qed.

(** X4. The snowflake [time_snowflake] builds from a millisecond count keeps
    that count in its bits above bit 22, with the low 22 bits all clear for
    [high=False] and all set for [high=True]; so the two values bracket every
    id of that millisecond, and reading the time back gives the count plus the
    Discord epoch. *)
Theorem time_snowflake_value_bits (discord_millis : Z) (high : bool) :
  utils.time_snowflake_value discord_millis high ≫ 22 = discord_millis ∧
  Z.land (utils.time_snowflake_value discord_millis high) (2 ^ 22 - 1)
    = (if high then 2 ^ 22 - 1 else 0) ∧
  snowflake_millis (utils.time_snowflake_value discord_millis high)
    = discord_millis + DISCORD_EPOCH ∧
  (∀ id, id ≫ 22 = discord_millis →
     utils.time_snowflake_value discord_millis false ≤ id
       ≤ utils.time_snowflake_value discord_millis true).
Proof.
  unfold utils.time_snowflake_value, snowflake_millis.
  rewrite Z.shiftl_mul_pow2 by lia.
  assert (∀ low, 0 ≤ low < 2 ^ 22 →
            (discord_millis * 2 ^ 22 + low) ≫ 22 = discord_millis ∧
            Z.land (discord_millis * 2 ^ 22 + low) (2 ^ 22 - 1) = low) as Hbits.
  { intros low Hlow. rewrite Z.shiftr_div_pow2 by lia.
    change (2 ^ 22 - 1) with (Z.ones 22). rewrite Z.land_ones by lia.
    rewrite Z.add_comm, Z.div_add, Z.mod_add by lia.
    rewrite Z.div_small, Z.mod_small by lia. lia. }
  destruct (Hbits (if high then 2 ^ 22 - 1 else 0)) as [Hhi Hlo];
    [destruct high; lia|].
  rewrite Hhi. split; [done|]. split; [done|]. split; [done|].
  intros i <-. rewrite Z.shiftr_div_pow2 by lia.
  pose proof (Z.div_mod i (2 ^ 22) ltac:(lia)).
  pose proof (Z.mod_pos_bound i (2 ^ 22) ltac:(lia)). lia.
Qed.

(** The id 4194305 = (1 << 22) + 1 lies between the two snowflakes of
    millisecond 1. *)
Lemma time_snowflake_value_bits_witness :
  4194305 ≫ 22 = 1 ∧
  utils.time_snowflake_value 1 false ≤ 4194305 ≤ utils.time_snowflake_value 1 true.
Proof.
  split; [reflexivity|].
  apply (proj2 (proj2 (proj2 (time_snowflake_value_bits 1 true)))). reflexivity.
Defined.

Section image_bytes.
Implicit Types (data prefix : list Byte.byte).

Lemma startswith_prefix data prefix :
  utils.startswith data prefix = true ↔ ∃ rest, data = prefix ++ rest.
Proof.
  revert data. induction prefix as [|p prefix IH]; intros data; simpl.
  - destruct data; (split; [intros _; by eexists|done]).
  - destruct data as [|d data].
    + split; [done|]. by intros [rest ?].
    + simpl. rewrite andb_true_iff, IH. split.
      * intros [->%Byte.byte_dec_bl [rest ->]]. eauto.
      * intros [rest [= -> ->]]. split; [by apply Byte.byte_dec_lb|eauto].
Qed.

Lemma startswith_pad data prefix (n : nat) :
  Byte.x00 ∉ prefix →
  utils.startswith (data ++ replicate n Byte.x00) prefix = utils.startswith data prefix.
Proof.
  revert data. induction prefix as [|p prefix IH]; intros data Hnul.
  { by destruct data, n. }
  apply not_elem_of_cons in Hnul as [Hp Hnul].
  destruct data as [|d data]; simpl.
  - destruct n as [|n]; simpl; [done|].
    destruct (Byte.eqb Byte.x00 p) eqn:Heq; [|done].
    by apply Byte.byte_dec_bl in Heq.
  - by rewrite IH.
Qed.

Lemma rstrip_nul_pad data (n : nat) :
  utils.rstrip_nul (data ++ replicate n Byte.x00) = utils.rstrip_nul data.
Proof.
  unfold utils.rstrip_nul. f_equal. rewrite reverse_app, reverse_replicate.
  induction n as [|n IH]; simpl; [done|]. by rewrite IH.
Qed.

(** X5. [_get_mime_type_for_image] does not depend on NUL bytes after the
    image: appending any number of zero bytes to the data leaves the outcome,
    a type or [InvalidArgument], as it was. *)
Theorem mime_type_ignores_nul_padding data (n : nat) :
  utils._get_mime_type_for_image (data ++ replicate n Byte.x00)
  = utils._get_mime_type_for_image data.
Proof.
  unfold utils._get_mime_type_for_image.
  rewrite rstrip_nul_pad.
  rewrite !startswith_pad; [done|..];
    unfold utils.GIF89a, utils.GIF87a, utils.JPEG_start, utils.PNG_signature;
    intros Hin; repeat (apply elem_of_cons in Hin as [Hin|Hin]; [done|]);
    by apply elem_of_nil in Hin.
Qed.

(** X6. [_get_mime_type_for_image] answers by the leading bytes: the type is
    PNG exactly when the data begins with the eight-byte PNG signature, GIF
    exactly when it begins with [GIF87a] or [GIF89a], and JPEG only when it
    begins with FF D8; data of fewer than two bytes raises
    [InvalidArgument]. *)
Theorem mime_type_by_signature data :
  (utils._get_mime_type_for_image data = inr "image/png" ↔
     ∃ rest, data = utils.PNG_signature ++ rest) ∧
  (utils._get_mime_type_for_image data = inr "image/gif" ↔
     ∃ rest, data = utils.GIF87a ++ rest ∨ data = utils.GIF89a ++ rest) ∧
  (utils._get_mime_type_for_image data = inr "image/jpeg" →
     ∃ rest, data = utils.JPEG_start ++ rest) ∧
  ((length data < 2)%nat → utils._get_mime_type_for_image data = inl InvalidArgument).
Proof.
  unfold utils._get_mime_type_for_image.
  destruct (utils.startswith data utils.PNG_signature) eqn:Hpng.
  { pose proof Hpng as [rest ->]%startswith_prefix.
    repeat split; try done; eauto;
      try (intros [rest' [Heq|Heq]]; discriminate); simpl; lia. }
  assert (¬ ∃ rest, data = utils.PNG_signature ++ rest) as Hnpng.
  { rewrite <-startswith_prefix. congruence. }
  destruct (utils.startswith data utils.JPEG_start) eqn:Hjpeg.
  { pose proof Hjpeg as [rest ->]%startswith_prefix. simpl.
    destruct (utils.endswith _ _); simpl; repeat split; try done; eauto;
      try (intros [rest' [Heq|Heq]]; discriminate); lia. }
  simpl.
  destruct (utils.startswith data utils.GIF87a) eqn:H87;
    [|destruct (utils.startswith data utils.GIF89a) eqn:H89]; simpl.
  - pose proof H87 as [rest ->]%startswith_prefix.
    repeat split; try done; eauto. simpl. lia.
  - pose proof H89 as [rest ->]%startswith_prefix.
    repeat split; try done; eauto. simpl. lia.
  - repeat split; try done.
    intros [rest [Heq|Heq]]; subst data.
    + by rewrite (proj2 (startswith_prefix _ _)) in H87 by eauto.
    + by rewrite (proj2 (startswith_prefix _ _)) in H89 by eauto.
Qed.
End image_bytes.

(** A one-byte input is refused. *)
Lemma mime_type_by_signature_witness :
  (length [Byte.xff] < 2)%nat ∧
  utils._get_mime_type_for_image [Byte.xff] = inl InvalidArgument.
Proof.
  split; [simpl; lia|].
  apply (proj2 (proj2 (proj2 (mime_type_by_signature [Byte.xff])))). simpl; lia.
Defined.

(** ** [Guild]: the channel listings *)

Local Instance key_le_total : Total GuildViews.key_le.
Proof. intros c1 c2. unfold GuildViews.key_le. lia. Qed.

Local Instance key_le_trans : Transitive GuildViews.key_le.
Proof. intros c1 c2 c3. unfold GuildViews.key_le. lia. Qed.

Lemma elem_of_channels (g : Guild.t) (c : Channel.t) :
  c ∈ GuildViews.channels g ↔ ∃ i, Guild._channels g !! i = Some c.
Proof.
  unfold GuildViews.channels. rewrite list_elem_of_fmap. split.
  - intros ([i c'] & -> & Hin). exists i. by apply elem_of_map_to_list.
  - intros [i Hi]. exists (i, c). split; [done|]. by apply elem_of_map_to_list.
Qed.

Lemma of_class_spec (cls : channel_class) (g : Guild.t) :
  Sorted GuildViews.key_le (GuildViews.of_class cls g) ∧
  GuildViews.of_class cls g
    ≡ₚ filter (λ ch, Channel.cls ch = cls) (GuildViews.channels g) ∧
  (∀ c, c ∈ GuildViews.of_class cls g ↔
        (∃ i, Guild._channels g !! i = Some c) ∧ Channel.cls c = cls).
Proof.
  unfold GuildViews.of_class. split; [apply Sorted_merge_sort; apply _|].
  split; [apply merge_sort_Permutation|].
  intros c. rewrite merge_sort_Permutation, list_elem_of_filter, elem_of_channels.
  naive_solver.
Qed.

(** X7. [text_channels], [voice_channels] and [categories] each list exactly
    the guild's channels of their class, in ascending order of
    [(position, id)]; together the three listings hold every channel of the
    guild exactly once. *)
Theorem channel_listings (g : Guild.t) :
  (Sorted GuildViews.key_le (GuildViews.text_channels g) ∧
   Sorted GuildViews.key_le (GuildViews.voice_channels g) ∧
   Sorted GuildViews.key_le (GuildViews.categories g)) ∧
  (∀ c, (c ∈ GuildViews.text_channels g ↔
           (∃ i, Guild._channels g !! i = Some c) ∧ Channel.cls c = TextChannel) ∧
        (c ∈ GuildViews.voice_channels g ↔
           (∃ i, Guild._channels g !! i = Some c) ∧ Channel.cls c = VoiceChannel) ∧
        (c ∈ GuildViews.categories g ↔
           (∃ i, Guild._channels g !! i = Some c) ∧ Channel.cls c = CategoryChannel)) ∧
  GuildViews.text_channels g ++ GuildViews.voice_channels g ++ GuildViews.categories g
    ≡ₚ GuildViews.channels g.
Proof.
  unfold GuildViews.text_channels, GuildViews.voice_channels, GuildViews.categories.
  split; [split; [|split]; apply of_class_spec|].
  split; [intros c; split; [|split]; apply of_class_spec|].
  rewrite !(proj1 (proj2 (of_class_spec _ g))).
  rewrite <-(filter_app_complement (λ ch, Channel.cls ch = TextChannel) (GuildViews.channels g)) at 4.
  f_equiv.
  rewrite <-(filter_app_complement (λ ch, Channel.cls ch = VoiceChannel)
               (filter (λ ch, Channel.cls ch ≠ TextChannel) (GuildViews.channels g))).
  rewrite !list_filter_filter. f_equiv.
  - apply Permutation_refl', list_filter_iff. intros c. split; [|naive_solver].
    intros ->. done.
  - apply Permutation_refl', list_filter_iff. intros c.
    destruct (Channel.cls c); naive_solver.
Qed.

(** ** [Guild]: shard, icon and chunk state *)

(** X8. With a positive shard count, [shard_id] of a guild whose id is set is
    a shard number from 0 up to the count, computed from the id's bits above
    bit 22, so ids of the same millisecond fall on the same shard; without a
    shard count it is [None], and a shard count of 0 raises
    [ZeroDivisionError]. *)
Theorem shard_id_in_range (g : Guild.t) (id count : Z) :
  Guild.attrs g !! "id" = Some (PInt id) →
  GuildViews.shard_id None g = inr None ∧
  GuildViews.shard_id (Some 0) g = inl ZeroDivisionError ∧
  (0 < count →
     ∃ s, GuildViews.shard_id (Some count) g = inr (Some s) ∧
          0 ≤ s < count ∧ s = (id `div` 2 ^ 22) `mod` count).
Proof.
  intros Hid. unfold GuildViews.shard_id. rewrite Hid. simpl.
  split; [done|]. split; [done|]. intros Hcount.
  rewrite (proj2 (Z.eqb_neq count 0)) by lia.
  eexists. split; [done|]. rewrite Z.shiftr_div_pow2 by lia.
  split; [|done]. by apply Z.mod_pos_bound.
Qed.

(** The guild built from the 300-member snapshot, whose id is 1, on four
    shards. *)
Lemma shard_id_in_range_witness :
  GuildViews.shard_id None (Guild.__init__ (sample_env 1) snapshot_300).2 = inr None ∧
  GuildViews.shard_id (Some 0) (Guild.__init__ (sample_env 1) snapshot_300).2
    = inl ZeroDivisionError ∧
  (0 < 4 →
     ∃ s, GuildViews.shard_id (Some 4) (Guild.__init__ (sample_env 1) snapshot_300).2
            = inr (Some s) ∧
          0 ≤ s < 4 ∧ s = (1 `div` 2 ^ 22) `mod` 4).
Proof. apply shard_id_in_range. vm_compute. reflexivity. Defined.

Section icon.
Context (py_str : pyval → string).

(** X9. [icon_url_as] checks its arguments before it looks at the guild: on
    every guild, also one whose icon or id was never set, it raises
    [InvalidArgument] exactly when the size is not a power of two from 16 to
    2048 or the format is not one of jpeg, jpg, webp and png, and it does so
    then whatever the guild holds. With valid arguments a guild whose icon
    slot is unset gives [AttributeError], an icon of [None] gives the empty
    string, and any other icon gives a non-empty URL when the id is set and
    [AttributeError] when it is not. [icon_url], with its defaults, never
    raises [InvalidArgument]. *)
Theorem icon_url_as_validates (g : Guild.t) (format : string) (size : Z) :
  (GuildViews.icon_url_as py_str format size g = inl InvalidArgument ↔
     utils.valid_icon_size size = false ∨ format ∉ GuildViews.VALID_ICON_FORMATS) ∧
  (utils.valid_icon_size size = false ∨ format ∉ GuildViews.VALID_ICON_FORMATS →
     ∀ g', GuildViews.icon_url_as py_str format size g' = inl InvalidArgument) ∧
  (utils.valid_icon_size size = true → format ∈ GuildViews.VALID_ICON_FORMATS →
     (Guild.attrs g !! "icon" = None →
        GuildViews.icon_url_as py_str format size g = inl (Builtin AttributeError)) ∧
     (Guild.attrs g !! "icon" = Some PNone →
        GuildViews.icon_url_as py_str format size g = inr "") ∧
     (∀ icon, Guild.attrs g !! "icon" = Some icon → icon ≠ PNone →
        match Guild.attrs g !! "id" with
        | None =>
            GuildViews.icon_url_as py_str format size g = inl (Builtin AttributeError)
        | Some id =>
            ∃ url, GuildViews.icon_url_as py_str format size g = inr url ∧ url ≠ ""
        end)) ∧
  GuildViews.icon_url py_str g ≠ inl InvalidArgument.
Proof.
  assert (∀ format size g',
            utils.valid_icon_size size = false ∨ format ∉ GuildViews.VALID_ICON_FORMATS →
            GuildViews.icon_url_as py_str format size g' = inl InvalidArgument) as Hbad.
  { intros f sz g' [Hs|Hf]; unfold GuildViews.icon_url_as.
    - by rewrite Hs.
    - destruct (utils.valid_icon_size sz); [|done]. simpl.
      by rewrite bool_decide_eq_false_2. }
  assert (∀ format size,
            utils.valid_icon_size size = true → format ∈ GuildViews.VALID_ICON_FORMATS →
            GuildViews.icon_url_as py_str format size g ≠ inl InvalidArgument) as Hok.
  { intros f sz Hs Hf. unfold GuildViews.icon_url_as.
    rewrite Hs, bool_decide_eq_true_2 by done. simpl.
    destruct (Guild.attrs g !! "icon") as [icon|]; [|done].
    destruct (is_None icon); [done|].
    by destruct (Guild.attrs g !! "id"). }
  split; [|split; [|split]].
  - split; [|by apply Hbad].
    intros Herr. destruct (utils.valid_icon_size size) eqn:Hs; [|by left]. right.
    intros Hf. by apply (Hok format size).
  - intros Hargs g'. by apply Hbad.
  - intros Hs Hf. unfold GuildViews.icon_url_as.
    rewrite Hs, bool_decide_eq_true_2 by done. simpl. split; [|split].
    + by intros ->.
    + by intros ->.
    + intros icon -> Hicon. destruct icon; try done.
      all: simpl; destruct (Guild.attrs g !! "id"); [|done].
      all: eexists; split; [done|]; discriminate.
  - apply (Hok "webp" 1024); [done|].
    unfold GuildViews.VALID_ICON_FORMATS. set_solver.
Qed.
End icon.

(** A guild whose icon and id were never set: a [gif] is refused with
    [InvalidArgument], a [png] of size 1024 gets as far as the icon and fails
    there. *)
Lemma icon_url_as_validates_witness :
  GuildViews.icon_url_as sample_str "gif" 1024 Guild.blank = inl InvalidArgument ∧
  GuildViews.icon_url_as sample_str "png" 1024 Guild.blank
    = inl (Builtin AttributeError).
Proof.
  split.
  - apply (proj1 (proj2 (icon_url_as_validates sample_str Guild.blank "gif" 1024))).
    right. unfold GuildViews.VALID_ICON_FORMATS. set_solver.
  - apply (proj1 (proj2 (proj2 (icon_url_as_validates sample_str Guild.blank "png" 1024)))).
    + reflexivity.
    + unfold GuildViews.VALID_ICON_FORMATS. set_solver.
    + reflexivity.
Defined.

(** X10. [chunked] compares the stored member count with the number of cached
    members, and neither [_add_member] nor [_remove_member] touches the stored
    count: caching a new member in a chunked guild, or dropping a cached one,
    leaves the guild not chunked. A guild with no stored count is never
    chunked. *)
Theorem chunked_after_member_change (g : Guild.t) (member : Member.t) :
  (Guild.attrs g !! "_member_count" = None → GuildViews.chunked g = false) ∧
  (GuildViews.chunked g = true →
     (Guild._members g !! Member.id member = None →
        GuildViews.chunked (Guild._add_member member g).2 = false) ∧
     (is_Some (Guild._members g !! Member.id member) →
        GuildViews.chunked (Guild._remove_member member g).2 = false)).
Proof.
  unfold GuildViews.chunked. split; [by intros ->|].
  intros Hch. unfold Guild._add_member, Guild._remove_member, modify. simpl.
  destruct (default PNone (Guild.attrs g !! "_member_count")) as [|b|n|?|?|?];
    simpl in *; try done.
  - split.
    + intros Hnew. rewrite map_size_insert_None by done.
      apply Z.eqb_eq in Hch. apply Z.eqb_neq. lia.
    + intros [m Hm]. rewrite map_size_delete_Some by done.
      assert (size (Guild._members g) ≠ 0%nat) by (eapply map_size_ne_0_lookup_2; eauto).
      apply Z.eqb_eq in Hch. apply Z.eqb_neq. lia.
  - split.
    + intros Hnew. rewrite map_size_insert_None by done.
      apply Z.eqb_eq in Hch. apply Z.eqb_neq. lia.
    + intros [m Hm]. rewrite map_size_delete_Some by done.
      assert (size (Guild._members g) ≠ 0%nat) by (eapply map_size_ne_0_lookup_2; eauto).
      apply Z.eqb_eq in Hch. apply Z.eqb_neq. lia.
Qed.

(** The guild with one cached member and a count of 1 is chunked; after user 6
    is cached, or user 5 dropped, it is not. *)
Lemma chunked_after_member_change_witness :
  GuildViews.chunked one_member = true ∧
  GuildViews.chunked (Guild._add_member (Member.mk 6 PNone PNone) one_member).2 = false ∧
  GuildViews.chunked (Guild._remove_member (Member.mk 5 PNone PNone) one_member).2 = false.
Proof.
  split; [reflexivity|]. split.
  - apply (proj2 (chunked_after_member_change one_member (Member.mk 6 PNone PNone)));
      reflexivity.
  - apply (proj2 (chunked_after_member_change one_member (Member.mk 5 PNone PNone)));
      [reflexivity|]. by eexists.
Defined.

(** ** [Guild]: what a rebuild keeps *)

Section maintains_facts.
Context {S : Type} (R : relation S) `{!Reflexive R, !Transitive R}.

Lemma maintains_ret {A} (x : A) : maintains R (mret x).
Proof. by intros s r s' [= <- <-]. Qed.

Lemma maintains_raise {A} e : maintains R (raise (A := A) e).
Proof. by intros s r s' [= <- <-]. Qed.

Lemma maintains_lift {A} (r : result A) : maintains R (lift r).
Proof. by intros s r' s' [= <- <-]. Qed.

Lemma maintains_gets {A} (h : S → A) : maintains R (gets h).
Proof. by intros s r s' [= <- <-]. Qed.

Lemma maintains_modify (h : S → S) : (∀ s, R s (h s)) → maintains R (modify h).
Proof. intros Hh s r s' [= <- <-]. apply Hh. Qed.

Lemma maintains_bind {A B} (m : M S A) (k : A → M S B) :
  maintains R m → (∀ x, maintains R (k x)) → maintains R (m ≫= k).
Proof.
  intros Hm Hk s r s'. unfold mbind, M_bind.
  destruct (m s) as [[e|x] s1] eqn:Hms.
  - intros [= <- <-]. by eapply Hm.
  - intros Hks. transitivity s1; [by eapply Hm|by eapply Hk].
Qed.

Lemma maintains_try_except {A} (body handler : M S A) exc :
  maintains R body → maintains R handler → maintains R (try_except body exc handler).
Proof.
  intros Hb Hh s r s'. unfold try_except.
  destruct (body s) as [[e|x] s1] eqn:Hbs.
  - destruct (exc e).
    + intros Hhs. transitivity s1; [by eapply Hb|by eapply Hh].
    + intros [= <- <-]. by eapply Hb.
  - intros [= <- <-]. by eapply Hb.
Qed.

Lemma maintains_for_each {A} (body : A → M S unit) l :
  (∀ x, maintains R (body x)) → maintains R (for_each body l).
Proof.
  intros Hb. induction l as [|x l IH]; simpl.
  - apply maintains_ret.
  - apply maintains_bind; auto.
Qed.
End maintains_facts.

Ltac maintains_step leaf :=
  lazymatch goal with
  | |- maintains _ (mret _) => apply maintains_ret; apply _
  | |- maintains _ (raise _) => apply maintains_raise; apply _
  | |- maintains _ (lift _) => apply maintains_lift; apply _
  | |- maintains _ (gets _) => apply maintains_gets; apply _
  | |- maintains _ (for_each _ _) => apply maintains_for_each; [apply _..|intros ?]
  | |- maintains _ (try_except _ _ _) => apply maintains_try_except; [apply _| |]
  | |- maintains _ (_ ≫= _) => apply maintains_bind; [apply _| |intros ?]
  | |- maintains _ (match ?x with _ => _ end) => destruct x
  | |- _ => leaf
  end.


Local Instance sync_frame_refl : Reflexive sync_frame.
Proof. intros g. by repeat split. Qed.

Local Instance sync_frame_trans : Transitive sync_frame.
Proof.
  intros g1 g2 g3 (Hm & Hc & Hr & Hv & He & Ha) (Hm' & Hc' & Hr' & Hv' & He' & Ha').
  repeat split; try congruence. set_solver.
Qed.

Local Instance caches_grow_refl : Reflexive caches_grow.
Proof. intros g. by split. Qed.

Local Instance caches_grow_trans : Transitive caches_grow.
Proof. intros g1 g2 g3 [Hm Hc] [Hm' Hc']. split; set_solver. Qed.

Lemma sync_frame_caches_grow g g' : sync_frame g g' → caches_grow g g'.
Proof. intros (Hm & Hc & _). split; [by rewrite Hm|done]. Qed.

Section rebuild.
Context (E : Env).

Lemma setattr_sync_frame slot v : maintains sync_frame (Guild.setattr slot v).
Proof. apply maintains_modify. by intros []. Qed.

Lemma get_member_unchanged (R : relation Guild.t) `{!Reflexive R} user_id :
  maintains R (Guild.get_member user_id).
Proof. by apply maintains_gets. Qed.

Lemma sync_maintains_frame (data : pydict) :
  maintains sync_frame (Guild._sync E data).
Proof.
  unfold Guild._sync, Guild._add_channel.
  repeat maintains_step ltac:(first
    [ apply setattr_sync_frame
    | apply get_member_unchanged; apply _
    | apply maintains_modify; intros []; repeat split; simpl;
        rewrite ?dom_alter_L, ?dom_insert_L; set_solver ]).
Qed.

(** X11. [_sync] only refreshes what the guild already caches: however it
    ends, the guild has the same member keys as before (a presence for an
    unknown user adds no member), still has every channel it had, and its
    roles, voice states, emojis and AFK channel are untouched. *)
Theorem sync_adds_no_member (data : pydict) (g g' : Guild.t) (r : result unit) :
  Guild._sync E data g = (r, g') →
  dom (Guild._members g') = dom (Guild._members g) ∧
  dom (Guild._channels g) ⊆ dom (Guild._channels g') ∧
  Guild._roles g' = Guild._roles g ∧
  Guild._voice_states g' = Guild._voice_states g ∧
  Guild.emojis g' = Guild.emojis g ∧
  Guild.afk_channel g' = Guild.afk_channel g.
Proof. intros Hrun. by apply (sync_maintains_frame data g r g'). Qed.
End rebuild.

(** A presence for user 9 and a new channel, synced into a guild that caches
    only user 5. *)
Lemma sync_adds_no_member_witness :
  dom (Guild._members (Guild._sync (sample_env 1) presence_and_channel one_member).2)
    = dom (Guild._members one_member) ∧
  dom (Guild._channels one_member)
    ⊆ dom (Guild._channels (Guild._sync (sample_env 1) presence_and_channel one_member).2) ∧
  Guild._roles (Guild._sync (sample_env 1) presence_and_channel one_member).2
    = Guild._roles one_member ∧
  Guild._voice_states (Guild._sync (sample_env 1) presence_and_channel one_member).2
    = Guild._voice_states one_member ∧
  Guild.emojis (Guild._sync (sample_env 1) presence_and_channel one_member).2
    = Guild.emojis one_member ∧
  Guild.afk_channel (Guild._sync (sample_env 1) presence_and_channel one_member).2
    = Guild.afk_channel one_member.
Proof.
  apply (sync_adds_no_member (sample_env 1) presence_and_channel one_member _
           (Guild._sync (sample_env 1) presence_and_channel one_member).1).
  apply surjective_pairing.
Defined.

Section rebuild2.
Context (E : Env).

Lemma unchanged_maintains {A} (R : relation Guild.t) `{!Reflexive R} (m : M Guild.t A) :
  (∀ X (f : Guild.t → X), preserves f m) → maintains R m.
Proof.
  intros Hm g r g' Hrun. pose proof (Hm _ id _ _ _ Hrun) as Heq.
  simpl in Heq. by subst.
Qed.

Lemma update_voice_state_caches data channel_id :
  maintains caches_grow (Guild._update_voice_state E data channel_id).
Proof.
  intros g r g' Hrun. split.
  - assert (preserves Guild._members (Guild._update_voice_state E data channel_id)) as Hp.
    { unfold Guild._update_voice_state, Guild.get_member.
      repeat frame_step ltac:(first
        [ apply get_channel_preserves | apply getitem_voice_state_preserves
        | intros ? ? ?; unfold Guild.pop_voice_state;
          destruct (_ !! _); by intros [= <- <-] ]). }
    by rewrite (Hp _ _ _ Hrun).
  - assert (preserves Guild._channels (Guild._update_voice_state E data channel_id)) as Hp.
    { unfold Guild._update_voice_state, Guild.get_member.
      repeat frame_step ltac:(first
        [ apply get_channel_preserves | apply getitem_voice_state_preserves
        | intros ? ? ?; unfold Guild.pop_voice_state;
          destruct (_ !! _); by intros [= <- <-] ]). }
    by rewrite (Hp _ _ _ Hrun).
Qed.

Lemma sync_caches data : maintains caches_grow (Guild._sync E data).
Proof.
  intros g r g' Hrun. by eapply sync_frame_caches_grow, sync_maintains_frame.
Qed.

Lemma from_data_maintains_caches (guild : pydict) :
  maintains caches_grow (Guild._from_data E guild).
Proof.
  unfold Guild._from_data, Guild._add_member, Guild.setattr. cbv zeta.
  repeat maintains_step ltac:(first
    [ apply sync_caches
    | apply update_voice_state_caches
    | apply unchanged_maintains; [apply _|intros; apply get_channel_preserves]
    | apply unchanged_maintains; [apply _|intros; apply getattr_preserves]
    | apply maintains_modify; intros []; split; simpl;
        rewrite ?dom_insert_L; set_solver ]).
Qed.

(** X12. A rebuild never forgets a cached member or channel: however
    [_from_data] ends, with or without an exception, every member id and
    every channel id the guild cached before is still cached after. *)
Theorem from_data_keeps_caches (guild : pydict) (g g' : Guild.t) (r : result unit) :
  Guild._from_data E guild g = (r, g') →
  (∀ i, is_Some (Guild._members g !! i) → is_Some (Guild._members g' !! i)) ∧
  (∀ i, is_Some (Guild._channels g !! i) → is_Some (Guild._channels g' !! i)).
Proof.
  intros Hrun. destruct (from_data_maintains_caches guild g r g' Hrun) as [Hm Hc].
  split; intros i; rewrite <-!elem_of_dom; set_solver.
Qed.
End rebuild2.

(** A payload without id, which raises, on the guild that caches user 5. *)
Lemma from_data_keeps_caches_witness :
  (∀ i, is_Some (Guild._members one_member !! i) →
        is_Some (Guild._members
                   (Guild._from_data (sample_env 1) no_id one_member).2 !! i)) ∧
  (∀ i, is_Some (Guild._channels one_member !! i) →
        is_Some (Guild._channels
                   (Guild._from_data (sample_env 1) no_id one_member).2 !! i)).
Proof.
  apply (from_data_keeps_caches (sample_env 1) no_id one_member _
           (Guild._from_data (sample_env 1) no_id one_member).1).
  apply surjective_pairing.
Defined.

Section rebuild3.
Context (E : Env).

Lemma roles_loop (l : list pyval) (g g' : Guild.t) :
  for_each (λ r, role ← lift (Role_init E r);
                 modify (Guild.set_roles <[Role.id role := role]>)) l g = (inr tt, g') →
  ∃ rs, res_map (Role_init E) l = inr rs ∧
        g' = Guild.set_roles (λ m, foldl (λ m r, <[Role.id r := r]> m) m rs) g.
Proof.
  revert g. induction l as [|v l IH]; intros g; simpl.
  - intros [= <-]. exists []. split; [done|]. by destruct g.
  - unfold mbind, M_bind, lift, modify.
    destruct (Role_init E v) as [e|role]; [done|]. simpl.
    intros Hrest. apply IH in Hrest as (rs & -> & ->).
    exists (role :: rs). split; [done|]. by destruct g.
Qed.

(** X13. A rebuild replaces the role dictionary: after a run of [_from_data]
    that raises nothing the guild holds exactly the roles built from the
    [roles] list of the payload, a later role replacing an earlier one of the
    same id, and none of the roles it held before; a payload without [roles]
    leaves the guild with no role at all. *)
Theorem from_data_rebuilds_roles (guild : pydict) (g g' : Guild.t) :
  Guild._from_data E guild g = (inr tt, g') →
  (∃ rs, res_bind (res_map (Role_init E)) (py_iter (dict_get guild "roles" (PList [])))
           = inr rs ∧
         Guild._roles g' = roles_of rs) ∧
  (dict_lookup guild "roles" = None → Guild._roles g' = ∅).
Proof.
  intros H. unfold Guild._from_data in H. cbv zeta in H.
  repeat (let x := fresh "x" in let g1 := fresh "g" in let H1 := fresh "Hstep" in
          apply bind_inr in H as (x & g1 & H1 & H)).
  apply (preserves_for_each Guild._roles) in H;
    [|intros ?; repeat frame_step ltac:(idtac)].
  2:{ unfold Guild._update_voice_state, Guild.get_member.
      repeat frame_step ltac:(first
        [ apply get_channel_preserves | apply getitem_voice_state_preserves
        | intros ? ? ?; unfold Guild.pop_voice_state;
          destruct (_ !! _); by intros [= <- <-] ]). }
  apply (preserves_for_each Guild._roles) in Hstep20;
    [|intros ?; unfold Guild._add_member; repeat frame_step ltac:(idtac)].
  apply sync_maintains_frame in Hstep21 as (_ & _ & Hsync & _).
  destruct x11. apply roles_loop in Hstep11 as (rs & Hrs & ->).
  assert (g23 = g22) as ->.
  { destruct (is_None _); [by inversion Hstep22|].
    apply bind_inr in Hstep22 as (count & s1 & Hcount & Hstep22).
    apply bind_inr in Hstep22 as (b & s2 & Hb & Hstep22).
    unfold Guild.getattr in Hcount. destruct (_ !! _); [|done].
    unfold lift in Hb. simplify_eq. by inversion Hstep22. }
  unfold Guild.setattr, modify, lift, Guild.get_channel in *.
  simplify_eq/=.
  assert (Guild._roles g' = roles_of rs) as Hroles.
  { rewrite H. simpl. rewrite Hsync, Hstep20. done. }
  split.
  - exists rs. by rewrite Hstep10.
  - intros Hnone. rewrite Hroles. unfold dict_get in Hstep10. rewrite Hnone in Hstep10.
    simpl in Hstep10. simplify_eq. simpl in Hrs. by simplify_eq.
Qed.

(** X14. A payload without [id] makes [_from_data] raise [KeyError] part-way:
    by then the name, region, verification level, content filter, AFK
    timeout, icon and availability are already overwritten from the payload;
    every other slot apart from the member count (the id, the MFA level, the
    features, the splash and the rest) and the guild's roles, members,
    channels, voice states, emojis and AFK channel are as before. *)
Theorem from_data_without_id (guild : pydict) (g : Guild.t) :
  dict_lookup guild "id" = None →
  ∃ g', Guild._from_data E guild g = (inl KeyError, g') ∧
    Guild.attrs g' = Guild.attrs_before_id E guild (Guild.attrs g) ∧
    (∀ slot, slot ∈ Guild.first_slots →
       Guild.attrs g' !! slot = Some (Guild.from_payload E guild slot)) ∧
    (∀ k, k ∉ "_member_count" :: Guild.first_slots →
       Guild.attrs g' !! k = Guild.attrs g !! k) ∧
    Guild._roles g' = Guild._roles g ∧
    Guild._members g' = Guild._members g ∧
    Guild._channels g' = Guild._channels g ∧
    Guild._voice_states g' = Guild._voice_states g ∧
    Guild.emojis g' = Guild.emojis g ∧
    Guild.afk_channel g' = Guild.afk_channel g.
Proof.
  intros Hid.
  assert (Guild._from_data E guild g =
            (inl KeyError, Guild.set_attrs (Guild.attrs_before_id E guild) g)) as Hrun.
  { unfold Guild._from_data. cbv zeta.
    rewrite bind_setattr_if. rewrite !bind_setattr.
    unfold dict_getitem, lift, mbind, M_bind. rewrite Hid. simpl. by f_equal. }
  eexists. split; [exact Hrun|]. rewrite attrs_set_attrs.
  split; [done|]. split; [|split].
  - intros slot Hslot. unfold Guild.first_slots in Hslot.
    repeat (apply elem_of_cons in Hslot as [->|Hslot]); [..|by apply elem_of_nil in Hslot].
    all: unfold Guild.attrs_before_id; cbv zeta.
    all: rewrite ?lookup_insert_ne by done; by rewrite lookup_insert_eq.
  - intros k Hk.
    assert (k ≠ "_member_count" ∧ k ≠ "name" ∧ k ≠ "region" ∧ k ≠ "verification_level" ∧
            k ≠ "explicit_content_filter" ∧ k ≠ "afk_timeout" ∧ k ≠ "icon" ∧
            k ≠ "unavailable") as (? & ? & ? & ? & ? & ? & ? & ?)
      by (unfold Guild.first_slots in Hk; set_solver).
    unfold Guild.attrs_before_id; cbv zeta.
    rewrite !lookup_insert_ne by done.
    destruct (truthy _); [by rewrite lookup_insert_ne|done].
  - by destruct g.
Qed.
End rebuild3.

(** The three-role guild rebuilt from a payload with two roles. *)
Lemma from_data_rebuilds_roles_witness :
  (∃ rs, res_bind (res_map (Role_init (sample_env 1)))
           (py_iter (dict_get two_roles "roles" (PList []))) = inr rs ∧
         Guild._roles (Guild._from_data (sample_env 1) two_roles three_roles).2
           = roles_of rs) ∧
  (dict_lookup two_roles "roles" = None →
     Guild._roles (Guild._from_data (sample_env 1) two_roles three_roles).2 = ∅).
Proof.
  apply (from_data_rebuilds_roles (sample_env 1) two_roles three_roles).
  vm_compute. reflexivity.
Defined.

(** The payload without id on the populated guild: the name is replaced, the
    region is cleared, the splash stays. *)
Lemma from_data_without_id_witness :
  ∃ g', Guild._from_data (sample_env 1) no_id populated = (inl KeyError, g') ∧
    Guild.attrs g' !! "name" = Some (PStr "H") ∧
    Guild.attrs g' !! "region" = Some PNone ∧
    Guild.attrs g' !! "splash" = Some (PStr "def").
Proof.
  destruct (from_data_without_id (sample_env 1) no_id populated)
    as (g' & Hrun & Hattrs & _); [reflexivity|].
  exists g'. split; [exact Hrun|]. rewrite Hattrs. repeat split; reflexivity.
Defined.

(** ** [Guild]: roles and voice states *)

(** X15. Creating a role and then deleting it undoes the renumbering: on a
    guild whose role positions are contiguous from 0 with the default role at
    0, [_add_role] of a new non-default role at position 1 followed by
    [_remove_role] of its id returns that role and leaves the guild exactly as
    it was before the two calls. *)
Theorem add_then_remove_role (E : Env) (g : Guild.t) (role : Role.t) :
  Guild.role_invariant E g → Guild.create_new E role g →
  (Guild._add_role E role ≫= λ _, Guild._remove_role (Role.id role)) g = (inr role, g).
Proof.
  intros [Hc Hd] (Hfresh & Hpos & Hnd).
  unfold mbind, M_bind at 1. rewrite add_role_run.
  rewrite (remove_role_run _ role) by (simpl; apply lookup_insert_eq).
  f_equal. destruct g as [chs mems vss roles ems afk attrs]. unfold Guild.set_roles. simpl in *.
  f_equal. rewrite delete_insert_id by (by rewrite lookup_fmap, Hfresh).
  rewrite <-map_fmap_compose. rewrite <-(map_fmap_id roles) at 2.
  apply map_fmap_ext. intros i r Hi. simpl.
  rewrite Hpos, b2z_gtb.
  pose proof (contiguous_range _ _ _ Hc Hi) as Hrange. simpl.
  destruct (is_default E r) eqn:Hdr; simpl.
  - destruct Hd as [_ Hz]. pose proof (Hz i r Hi Hdr) as Hp0.
    destruct r as [rid rname rpos]. unfold Role.set_position. simpl in *. subst rpos.
    simpl. done.
  - assert (Role.position r ≠ 0) as Hnz.
    { intros Hp. rewrite (zero_is_default E roles i r) in Hdr by done. done. }
    destruct r as [rid rname rpos]. unfold Role.set_position. simpl in *.
    rewrite decide_True by lia. f_equal. lia.
Qed.

(** Creating [Bots] in the three-role guild and deleting it again. *)
Lemma add_then_remove_role_witness :
  (Guild._add_role (sample_env 1) (Role.mk 4 "Bots" 1)
     ≫= λ _, Guild._remove_role 4) three_roles
  = (inr (Role.mk 4 "Bots" 1), three_roles).
Proof.
  apply (add_then_remove_role (sample_env 1) three_roles (Role.mk 4 "Bots" 1)).
  - apply three_roles_invariant.
  - split; [reflexivity|]. split; reflexivity.
Defined.

(** X16. A voice-state payload without [user_id] makes [_update_voice_state]
    raise [KeyError] with the guild untouched: the lookup happens before the
    [try], so the [except KeyError] that handles a cache miss does not turn it
    into a new cache entry. *)
Theorem update_voice_state_without_user (E : Env) (data : pydict) (channel_id : pyval)
    (g : Guild.t) :
  dict_lookup data "user_id" = None →
  Guild._update_voice_state E data channel_id g = (inl KeyError, g).
Proof.
  intros Hnone.
  unfold Guild._update_voice_state, dict_getitem, lift, mbind, M_bind.
  by rewrite Hnone.
Qed.

Lemma update_voice_state_without_user_witness :
  Guild._update_voice_state (sample_env 1) [("channel_id", PStr "10")] (PInt 10)
    one_voice_channel
  = (inl KeyError, one_voice_channel).
Proof. apply update_voice_state_without_user. reflexivity. Defined.

(** X17. After a voice-state update that names a channel the guild has, the
    store holds the returned [after] state under the user's id, that state
    sits in the named channel, the returned member is the cached member of
    that id, and no other user's voice state has changed. *)
Theorem update_voice_state_stores_after (E : Env) (data : pydict) (channel_id : pyval)
    (g : Guild.t) (user_id : Z) (channel : Channel.t) :
  res_bind (py_int E) (dict_getitem data "user_id") = inr user_id →
  Guild.get_by_key (Guild._channels g) channel_id = inr (Some channel) →
  ∃ before after g',
    Guild._update_voice_state E data channel_id g
      = (inr (Guild._members g !! user_id, before, after), g') ∧
    Guild._voice_states g' !! user_id = Some after ∧
    VoiceState.channel after = Some channel ∧
    (∀ other, other ≠ user_id →
       Guild._voice_states g' !! other = Guild._voice_states g !! other) ∧
    Guild._members g' = Guild._members g ∧
    Guild._channels g' = Guild._channels g.
Proof.
  intros Huser Hch.
  rewrite (update_voice_state_run E data channel_id g user_id (Some channel)) by done.
  destruct (Guild._voice_states g !! user_id) as [prior|];
    do 3 eexists; (split; [reflexivity|]); destruct g; simpl;
    (split; [apply lookup_insert_eq|]); (split; [done|]);
    (split; [intros other Hne; by apply lookup_insert_ne|done]).
Qed.

Lemma update_voice_state_stores_after_witness :
  ∃ before after g',
    Guild._update_voice_state (sample_env 1) join_muted (PInt 10) one_voice_channel
      = (inr (Guild._members one_voice_channel !! 5, before, after), g') ∧
    Guild._voice_states g' !! 5 = Some after ∧
    VoiceState.channel after = Some (Channel.mk 10 VoiceChannel 0) ∧
    (∀ other, other ≠ 5 →
       Guild._voice_states g' !! other = Guild._voice_states one_voice_channel !! other) ∧
    Guild._members g' = Guild._members one_voice_channel ∧
    Guild._channels g' = Guild._channels one_voice_channel.
Proof.
  apply (update_voice_state_stores_after (sample_env 1) join_muted (PInt 10)
           one_voice_channel 5 (Channel.mk 10 VoiceChannel 0)); reflexivity.
Defined.

(** ** [SnowflakeList]: the search *)

Lemma bisect_loop_bounds (a : list Z) (x : Z) (lo hi : nat) :
  (lo ≤ hi ≤ length a)%nat →
  ∃ i, bisect_loop a x lo hi = inr i ∧ (lo ≤ i ≤ hi)%nat.
Proof.
  funelim (bisect_loop a x lo hi); intros Hrange.
  - exists lo. split; [done|lia].
  - exfalso. assert ((lo ≤ Nat.div (lo + hi) 2 < hi)%nat) as Hmid by (by apply midpoint_range).
    apply lookup_ge_None in Heq. lia.
  - assert ((lo ≤ Nat.div (lo + hi) 2 < hi)%nat) as Hmid by (by apply midpoint_range).
    destruct H as (i & Hi & Hr); [lia|]. exists i. split; [done|lia].
  - assert ((lo ≤ Nat.div (lo + hi) 2 < hi)%nat) as Hmid by (by apply midpoint_range).
    destruct H as (i & Hi & Hr); [lia|]. exists i. split; [done|lia].
Qed.

(** X18. [bisect_left], and with it [has], [get] and the search of [add],
    never reads outside the array: on every array, sorted or not, the search
    returns an index from 0 to the length, and [has] and [get] return a value
    without raising. *)
Theorem snowflake_search_in_bounds (a : list Z) (x : Z) :
  (∃ i, bisect_left a x = inr i ∧ (i ≤ length a)%nat) ∧
  (∃ b, SnowflakeList.has x a = inr b) ∧
  (∃ r, SnowflakeList.get x a = inr r).
Proof.
  destruct (bisect_loop_bounds a x 0 (length a)) as (i & Hi & Hr); [lia|].
  unfold SnowflakeList.has, SnowflakeList.get, bisect_left. rewrite Hi. simpl.
  split; [exists i; split; [done|lia]|].
  destruct (a !! i) as [v|] eqn:Hv; [eauto|].
  apply lookup_ge_None in Hv.
  rewrite (bool_decide_eq_false_2 (i ≠ length a)) by lia. eauto.
Qed.

Lemma filter_all {A} (P : A → Prop) `{!∀ x, Decision (P x)} (l : list A) :
  Forall P l → filter P l = l.
Proof.
  induction 1 as [|y l Hy _ IH]; [done|]. by rewrite filter_cons_True, IH.
Qed.

Lemma filter_none {A} (P : A → Prop) `{!∀ x, Decision (P x)} (l : list A) :
  Forall (λ y, ¬ P y) l → filter P l = [].
Proof.
  induction 1 as [|y l Hy _ IH]; [done|]. by rewrite filter_cons_False.
Qed.

(** X19. On an array in non-decreasing order [bisect_left] returns the number
    of stored ids that are strictly smaller than the one searched: the
    leftmost place where it can be inserted, before any equal id. *)
Theorem bisect_left_counts_smaller (a : list Z) (x : Z) :
  Sorted Z.le a →
  bisect_left a x = inr (length (filter (λ v, v < x) a)).
Proof.
  intros Hs. apply (Sorted_StronglySorted _) in Hs.
  destruct (bisect_left_sorted a x Hs) as (i & -> & Hlen & Hbelow & Habove).
  f_equal. rewrite <-(take_drop i a) at 1. rewrite filter_app, length_app.
  rewrite filter_all, filter_none.
  - rewrite length_take. simpl. lia.
  - apply Forall_forall. intros v [k [Hk Hv]]%elem_of_drop_lookup.
    specialize (Habove k v Hk Hv). lia.
  - apply Forall_forall. intros v [k [Hk Hv]]%elem_of_take_lookup. eauto.
Qed.

Lemma bisect_left_counts_smaller_witness :
  bisect_left [1; 3; 3; 7] 3 = inr (length (filter (λ v, v < 3) [1; 3; 3; 7])).
Proof.
  apply bisect_left_counts_smaller. repeat constructor; lia.
Defined.

(** ** Lookups *)

(** X20. [_get_as_snowflake] turns a missing key into [None] and never raises
    [KeyError]; a value it returns is an integer unless it is falsy ([None],
    0, an empty string), and a falsy value is returned as it is. *)
Theorem get_as_snowflake_result (E : Env) (data : pydict) (key : string) :
  (dict_lookup data key = None → _get_as_snowflake E data key = inr PNone) ∧
  _get_as_snowflake E data key ≠ inl KeyError ∧
  (∀ v, _get_as_snowflake E data key = inr v →
        (∃ n, v = PInt n) ∨ (truthy v = false ∧ dict_get data key PNone = v)).
Proof.
  unfold _get_as_snowflake, dict_get.
  destruct (dict_lookup data key) as [value|]; [|split; [done|]; split; [done|]].
  - split; [done|]. destruct (truthy value) eqn:Ht.
    + split.
      * destruct value as [|b|n|s|l|d]; simpl; try done.
        by destruct (int_of_str E s).
      * intros v Hv. left. destruct (py_int E value); simpl in Hv; simplify_eq. eauto.
    + split; [done|]. intros v [= <-]. by right.
  - intros v [= <-]. by right.
Qed.

(** A payload without [afk_channel_id] gives [None]. *)
Lemma get_as_snowflake_result_witness :
  dict_lookup icon_only "afk_channel_id" = None ∧
  _get_as_snowflake (sample_env 1) icon_only "afk_channel_id" = inr PNone.
Proof.
  split; [reflexivity|].
  apply (proj1 (get_as_snowflake_result (sample_env 1) icon_only "afk_channel_id")).
  reflexivity.
Defined.

(** X21. The member cache is a map by id: after [_add_member] the member is
    found under its id, replacing any member cached under that id; after
    [_remove_member] nothing is found there; either call leaves every other
    id's entry alone; and adding a member that was not cached and removing it
    again gives back the guild as it was. *)
Theorem member_cache_round_trip (member : Member.t) (g : Guild.t) :
  Guild.get_member (Member.id member) (Guild._add_member member g).2
    = (inr (Some member), (Guild._add_member member g).2) ∧
  Guild.get_member (Member.id member) (Guild._remove_member member g).2
    = (inr None, (Guild._remove_member member g).2) ∧
  (∀ other, other ≠ Member.id member →
     (Guild.get_member other (Guild._add_member member g).2).1
       = (Guild.get_member other g).1 ∧
     (Guild.get_member other (Guild._remove_member member g).2).1
       = (Guild.get_member other g).1) ∧
  (Guild._members g !! Member.id member = None →
     (Guild._add_member member ≫= λ _, Guild._remove_member member) g = (inr tt, g)).
Proof.
  unfold Guild.get_member, Guild._add_member, Guild._remove_member, gets, modify,
    mbind, M_bind.
  destruct g as [chs mems vss roles ems afk attrs]. unfold Guild.set_members. simpl.
  split; [by rewrite lookup_insert_eq|]. split; [by rewrite lookup_delete_eq|].
  split.
  - intros other Hne. by rewrite lookup_insert_ne, lookup_delete_ne.
  - intros Hnone. by rewrite delete_insert_id.
Qed.

(** User 6 is not cached in the one-member guild: adding and removing them
    gives the guild back. *)
Lemma member_cache_round_trip_witness :
  Guild._members one_member !! 6 = None ∧
  (Guild._add_member (Member.mk 6 PNone PNone) ≫= λ _,
     Guild._remove_member (Member.mk 6 PNone PNone)) one_member = (inr tt, one_member).
Proof.
  split; [reflexivity|].
  apply (proj2 (proj2 (proj2 (member_cache_round_trip (Member.mk 6 PNone PNone) one_member)))).
  reflexivity.
Defined.

(** X22. A rebuild and the [large] property together: after a run of
    [_from_data] that raises nothing on a payload whose [member_count] is a
    non-zero integer, [large] is that count compared with 250; on a payload
    without [member_count], for a guild that never stored a count, [large] is
    the number of cached members compared with 250. *)
Theorem large_after_rebuild (E : Env) (guild : pydict) (g g' : Guild.t) :
  Guild._from_data E guild g = (inr tt, g') →
  (∀ n, dict_get guild "member_count" PNone = PInt n → n ≠ 0 →
        Guild.large g' = (inr (PBool (250 <=? n)), g')) ∧
  (dict_lookup guild "member_count" = None →
   Guild.attrs g !! "_member_count" = None →
   Guild.large g'
     = (inr (PBool (250 <=? Z.of_nat (size (Guild._members g')))), g')).
Proof.
  intros Hrun. split.
  - intros n Hmc Hn.
    destruct (from_data_large_determined E guild g g' n Hrun Hmc Hn) as [Hlarge _].
    by apply large_determined.
  - intros Hnone Hcount.
    assert (dict_get guild "member_count" PNone = PNone) as Hmc
      by (unfold dict_get; by rewrite Hnone).
    rewrite large_undetermined by (by eapply from_data_large_undetermined).
    destruct (from_data_attrs E guild g g' Hrun)
      as (id & sys & large & owner & _ & _ & _ & _ & ->).
    rewrite attrs_from_data_member_count, Hmc. simpl. by rewrite Hcount.
Qed.

Lemma large_after_rebuild_witness :
  (∀ n, dict_get snapshot_300 "member_count" PNone = PInt n → n ≠ 0 →
        Guild.large (Guild.__init__ (sample_env 1) snapshot_300).2
          = (inr (PBool (250 <=? n)), (Guild.__init__ (sample_env 1) snapshot_300).2)) ∧
  (dict_lookup snapshot_300 "member_count" = None →
   Guild.attrs Guild.blank !! "_member_count" = None →
   Guild.large (Guild.__init__ (sample_env 1) snapshot_300).2
     = (inr (PBool (250 <=? Z.of_nat
          (size (Guild._members (Guild.__init__ (sample_env 1) snapshot_300).2)))),
        (Guild.__init__ (sample_env 1) snapshot_300).2)).
Proof.
  apply (large_after_rebuild (sample_env 1) snapshot_300 Guild.blank).
  vm_compute. reflexivity.
Defined.

(** ** The default role *)

Lemma find_Some_elem {A} (p : A → bool) (l : list A) (x : A) :
  utils.find p l = Some x → x ∈ l ∧ p x = true.
Proof.
  induction l as [|y l IH]; simpl; [done|].
  destruct (p y) eqn:Hy.
  - intros [= <-]. split; [left|done].
  - intros Hf. destruct (IH Hf). split; [by right|done].
Qed.

Lemma find_only {A} (p : A → bool) (l : list A) (x : A) :
  (∀ y, y ∈ l → p y = true → y = x) → x ∈ l → p x = true → utils.find p l = Some x.
Proof.
  intros Honly Hin Hx. induction l as [|y l IH]; simpl.
  - by apply elem_of_nil in Hin.
  - destruct (p y) eqn:Hy.
    + f_equal. apply Honly; [left|done].
    + apply IH.
      * intros z Hz. apply Honly. by right.
      * apply elem_of_cons in Hin as [->|Hin]; [congruence|done].
Qed.

Lemma elem_of_roles_values (g : Guild.t) (r : Role.t) :
  r ∈ GuildViews.roles_values g ↔ ∃ i, Guild._roles g !! i = Some r.
Proof.
  unfold GuildViews.roles_values. rewrite list_elem_of_fmap. split.
  - intros ([i r'] & -> & Hin). exists i. by apply elem_of_map_to_list in Hin.
  - intros (i & Hi). exists (i, r). split; [done|]. by apply elem_of_map_to_list.
Qed.

Section default_role.
Context (E : Env).

Lemma default_only (g : Guild.t) i j r r' :
  Guild.role_invariant E g →
  Guild._roles g !! i = Some r → is_default E r = true →
  Guild._roles g !! j = Some r' → is_default E r' = true → r' = r.
Proof.
  intros [Hc [_ Hz]] Hi Hr Hj Hr'.
  assert (j = i) as ->.
  { eapply contiguous_inj; eauto. rewrite (Hz i r), (Hz j r'); done. }
  congruence.
Qed.

Lemma default_role_found (g : Guild.t) i r values :
  Guild.role_invariant E g →
  Guild._roles g !! i = Some r → is_default E r = true →
  values ≡ₚ GuildViews.roles_values g →
  utils.find (is_default E) values = Some r.
Proof.
  intros Hinv Hi Hr Hperm. apply find_only; [|by rewrite Hperm, elem_of_roles_values; eauto|done].
  intros r'. rewrite Hperm, elem_of_roles_values. intros (j & Hj) Hr'.
  eapply default_only; eauto.
Qed.

(** X23. In a well-formed hierarchy [default_role] finds the guild's one
    default role, the role at position 0, in whatever order the dictionary
    lists its roles; a guild none of whose roles is the default one has no
    [default_role]. *)
Theorem default_role_of_hierarchy (g : Guild.t) :
  (Guild.role_invariant E g →
     ∃ r, GuildViews.default_role E g = Some r ∧
          (∃ i, Guild._roles g !! i = Some r) ∧
          is_default E r = true ∧ Role.position r = 0 ∧
          (∀ i r', Guild._roles g !! i = Some r' →
                   (is_default E r' = true ∨ Role.position r' = 0) → r' = r) ∧
          (∀ values, values ≡ₚ GuildViews.roles_values g →
                     utils.find (is_default E) values = Some r)) ∧
  ((∀ i r, Guild._roles g !! i = Some r → is_default E r = false) →
     GuildViews.default_role E g = None).
Proof.
  split.
  - intros Hinv. pose proof Hinv as [Hc [(j & d & Hj & Hd) Hz]].
    exists d. split; [by apply (default_role_found g j d)|].
    split; [by eauto|]. split; [done|]. split; [by eauto|]. split.
    + intros i r' Hi [Hr'|Hp]; [by apply (default_only g j i d r')|].
      apply (default_only g j i d r'); try done.
      destruct Hinv as [_ Hdz]. by apply (zero_is_default E (Guild._roles g) i r').
    + intros values Hperm. by apply (default_role_found g j d).
  - intros Hnone. unfold GuildViews.default_role.
    destruct (utils.find _ _) as [r|] eqn:Hf; [|done].
    apply find_Some_elem in Hf as [Hin Hr].
    apply elem_of_roles_values in Hin as (i & Hi). rewrite (Hnone i r Hi) in Hr. done.
Qed.

Hypothesis is_default_position :
  ∀ r p, is_default E (Role.set_position p r) = is_default E r.

Lemma set_position_same (r : Role.t) (p : Z) :
  p = Role.position r → Role.set_position p r = r.
Proof. intros ->. by destruct r. Qed.

Lemma role_event_keeps_default (ev : Guild.role_event) (g : Guild.t) i d :
  Guild.role_invariant E g →
  Guild.admissible E (Guild.delete_non_default E) [ev] g →
  Guild._roles g !! i = Some d → is_default E d = true →
  Guild.role_invariant E (Guild.apply_role_event E ev g).2 ∧
  (Guild.apply_role_event E ev g).1 = inr tt ∧
  Guild._roles (Guild.apply_role_event E ev g).2 !! i = Some d.
Proof.
  intros Hinv [Hev _] Hi Hd. pose proof Hinv as [Hc [_ Hz]].
  destruct ev as [role|role_id]; cbn [Guild.apply_role_event].
  - split; [by apply add_role_invariant|].
    rewrite add_role_run. split; [done|]. destruct Hev as (Hfresh & _ & _).
    unfold Guild.set_roles. simpl.
    rewrite lookup_insert_ne by congruence.
    rewrite lookup_fmap, Hi. simpl. f_equal.
    apply set_position_same. rewrite Hd. simpl. lia.
  - destruct (remove_role_invariant E is_default_position role_id g Hinv Hev)
      as (role & Hrun & Hinv').
    destruct Hev as (role' & Hrole & Hnd).
    unfold mbind, M_bind. rewrite (remove_role_run role_id role') in * by done.
    simpl in *. split; [done|]. split; [done|].
    rewrite lookup_fmap, lookup_delete_ne by congruence. rewrite Hi. simpl. f_equal.
    apply set_position_same. rewrite (Hz i d) by done.
    pose proof (contiguous_range _ _ _ Hc Hrole) as Hrange.
    rewrite b2z_gtb. case_decide; lia.
Qed.

(** X24. Role-creates and role-deletes of non-default roles never change what
    [default_role] computes: after any such sequence of events on a well-formed
    hierarchy it finds the same role, at the same position, as before. This is
    what lets the property keep its first result. *)
Theorem default_role_stable (g : Guild.t) (evs : list Guild.role_event) :
  Guild.role_invariant E g →
  Guild.admissible E (Guild.delete_non_default E) evs g →
  (for_each (Guild.apply_role_event E) evs g).1 = inr tt ∧
  GuildViews.default_role E (for_each (Guild.apply_role_event E) evs g).2
    = GuildViews.default_role E g ∧
  is_Some (GuildViews.default_role E g).
Proof.
  intros Hinv Hadm. pose proof Hinv as [_ [(j & d & Hj & Hd) _]].
  assert (GuildViews.default_role E g = Some d) as ->
    by (by apply (default_role_found g j d)).
  cut ((for_each (Guild.apply_role_event E) evs g).1 = inr tt ∧
       Guild.role_invariant E (for_each (Guild.apply_role_event E) evs g).2 ∧
       Guild._roles (for_each (Guild.apply_role_event E) evs g).2 !! j = Some d).
  { intros (Hrun & Hinv' & Hj'). split; [done|]. split; [|by eexists].
    by apply (default_role_found (for_each (Guild.apply_role_event E) evs g).2 j d). }
  revert g Hinv Hadm Hj.
  induction evs as [|ev evs IH]; intros g Hinv Hadm Hj; [done|].
  destruct Hadm as [Hev Hadm].
  destruct (role_event_keeps_default ev g j d) as (Hinv' & Hrun & Hj'); try done.
  simpl. unfold mbind, M_bind.
  destruct (Guild.apply_role_event E ev g) as [[e|[]] g1]; simplify_eq/=.
  by apply IH.
Qed.
End default_role.

(** The three-role guild: its default role is [@everyone]. *)
Lemma default_role_of_hierarchy_witness :
  ∃ r, GuildViews.default_role (sample_env 1) three_roles = Some r ∧
       (∃ i, Guild._roles three_roles !! i = Some r) ∧
       is_default (sample_env 1) r = true ∧ Role.position r = 0 ∧
       (∀ i r', Guild._roles three_roles !! i = Some r' →
                (is_default (sample_env 1) r' = true ∨ Role.position r' = 0) → r' = r) ∧
       (∀ values, values ≡ₚ GuildViews.roles_values three_roles →
                  utils.find (is_default (sample_env 1)) values = Some r).
Proof.
  apply (proj1 (default_role_of_hierarchy (sample_env 1) three_roles)).
  apply three_roles_invariant.
Defined.

(** Creating a role and deleting [Admin] in the three-role guild leaves
    [@everyone] the default role. *)
Lemma default_role_stable_witness :
  (for_each (Guild.apply_role_event (sample_env 1))
     [Guild.RoleCreate (Role.mk 4 "Bots" 1); Guild.RoleDelete 2] three_roles).1 = inr tt ∧
  GuildViews.default_role (sample_env 1)
    (for_each (Guild.apply_role_event (sample_env 1))
       [Guild.RoleCreate (Role.mk 4 "Bots" 1); Guild.RoleDelete 2] three_roles).2
    = GuildViews.default_role (sample_env 1) three_roles ∧
  is_Some (GuildViews.default_role (sample_env 1) three_roles).
Proof.
  apply default_role_stable.
  - intros r p. reflexivity.
  - apply three_roles_invariant.
  - split; [|split; [|exact I]].
    + split; [reflexivity|]. split; reflexivity.
    + exists (Role.mk 2 "Admin" 2). split; [|reflexivity]. vm_compute. reflexivity.
Defined.

(** ** The channel cache and the channel listings *)

(** X25. A channel put in the cache by [_add_channel] is found by
    [get_channel] under its id and is listed by the listing of its own class
    only ([text_channels], [voice_channels] or [categories]); when its id is
    new, the guild has one channel more and every listing keeps what it had.
    After [_remove_channel] the id is not found and the listings hold exactly
    the channels cached under the other ids; adding a channel with a new id
    and removing it gives back the guild as it was. *)
Theorem channel_cache_listings (channel : Channel.t) (g : Guild.t) :
  Guild.get_channel (PInt (Channel.id channel)) (Guild._add_channel channel g).2
    = (inr (Some channel), (Guild._add_channel channel g).2) ∧
  (∀ cls, channel ∈ GuildViews.of_class cls (Guild._add_channel channel g).2 ↔
          cls = Channel.cls channel) ∧
  (Guild._channels g !! Channel.id channel = None →
     length (GuildViews.channels (Guild._add_channel channel g).2)
       = S (length (GuildViews.channels g)) ∧
     (∀ cls c, c ∈ GuildViews.of_class cls g →
               c ∈ GuildViews.of_class cls (Guild._add_channel channel g).2) ∧
     (Guild._add_channel channel ≫= λ _, Guild._remove_channel channel) g = (inr tt, g)) ∧
  Guild.get_channel (PInt (Channel.id channel)) (Guild._remove_channel channel g).2
    = (inr None, (Guild._remove_channel channel g).2) ∧
  (∀ cls c, c ∈ GuildViews.of_class cls (Guild._remove_channel channel g).2 ↔
            ∃ i, i ≠ Channel.id channel ∧ Guild._channels g !! i = Some c ∧
                 Channel.cls c = cls).
Proof.
  unfold Guild._add_channel, Guild._remove_channel, Guild.get_channel, modify,
    mbind, M_bind, GuildViews.channels.
  destruct g as [chs mems vss roles ems afk attrs]. unfold Guild.set_channels. simpl.
  split; [by rewrite lookup_insert_eq|]. split; [|split; [|split]].
  - intros cls. rewrite (proj2 (proj2 (of_class_spec cls _))). simpl. split.
    + by intros [_ <-].
    + intros ->. split; [|done]. exists (Channel.id channel). by rewrite lookup_insert_eq.
  - intros Hnone. split; [|split].
    + rewrite !length_fmap, !length_map_to_list. by rewrite map_size_insert_None.
    + intros cls c. rewrite !(proj2 (proj2 (of_class_spec cls _))). simpl.
      intros [(i & Hi) Hcls]. split; [|done]. exists i.
      rewrite lookup_insert_ne; [done|]. intros <-. congruence.
    + by rewrite delete_insert_id.
  - by rewrite lookup_delete_eq.
  - intros cls c. rewrite (proj2 (proj2 (of_class_spec cls _))). simpl. split.
    + intros [(i & Hi) Hcls]. apply lookup_delete_Some in Hi as [Hne Hi]. by exists i.
    + intros (i & Hne & Hi & Hcls). split; [|done]. exists i.
      by rewrite lookup_delete_ne.
Qed.

(** Channel 11 is new to the guild with the one voice channel 10. *)
Lemma channel_cache_listings_witness :
  Guild._channels one_voice_channel !! 11 = None ∧
  length (GuildViews.channels
            (Guild._add_channel (Channel.mk 11 TextChannel 0) one_voice_channel).2)
    = S (length (GuildViews.channels one_voice_channel)) ∧
  (∀ cls c, c ∈ GuildViews.of_class cls one_voice_channel →
            c ∈ GuildViews.of_class cls
                  (Guild._add_channel (Channel.mk 11 TextChannel 0) one_voice_channel).2) ∧
  (Guild._add_channel (Channel.mk 11 TextChannel 0) ≫= λ _,
     Guild._remove_channel (Channel.mk 11 TextChannel 0)) one_voice_channel
    = (inr tt, one_voice_channel).
Proof.
  split; [reflexivity|].
  apply (proj1 (proj2 (proj2
    (channel_cache_listings (Channel.mk 11 TextChannel 0) one_voice_channel)))).
  reflexivity.
Defined.

(** ** A rebuild from a bare payload *)

Section bare.
Context (E : Env).

(** X26. On a payload whose id converts to an integer, whose member count is
    absent or a non-zero integer, and which carries no roles, emojis, members,
    presences, channels, voice states, system channel, owner or AFK channel,
    [_from_data] runs to its end on every guild: the roles, the emojis and the
    AFK channel are reset to none, while the cached members, channels and
    voice states stay as they were. *)
Theorem from_data_bare_payload (guild : pydict) (g : Guild.t) (id : Z) :
  res_bind (py_int E) (dict_getitem guild "id") = inr id →
  (dict_lookup guild "member_count" = None ∨
   ∃ n, n ≠ 0 ∧ dict_lookup guild "member_count" = Some (PInt n)) →
  (∀ key, key ∈ ["roles"; "emojis"; "members"; "presences"; "channels"; "voice_states";
                 "system_channel_id"; "owner_id"; "afk_channel_id"] →
          dict_lookup guild key = None) →
  ∃ g', Guild._from_data E guild g = (inr tt, g') ∧
    Guild._roles g' = ∅ ∧ Guild.emojis g' = [] ∧ Guild.afk_channel g' = None ∧
    Guild._members g' = Guild._members g ∧
    Guild._channels g' = Guild._channels g ∧
    Guild._voice_states g' = Guild._voice_states g ∧
    Guild.attrs g' !! "id" = Some (PInt id) ∧
    Guild.attrs g' !! "owner_id" = Some PNone.
Proof.
  intros Hid Hcount Habsent.
  assert (∀ key default,
            key ∈ ["roles"; "emojis"; "members"; "presences"; "channels"; "voice_states";
                   "system_channel_id"; "owner_id"; "afk_channel_id"] →
            dict_get guild key default = default) as Hget.
  { intros key default Hkey. unfold dict_get. by rewrite Habsent. }
  destruct g as [chs mems vss roles ems afk attrs].
  unfold Guild._from_data, Guild._sync, _get_as_snowflake, dict_contains. cbv zeta.
  rewrite Hid.
  rewrite !Habsent by set_solver.
  rewrite (Hget "roles"), (Hget "emojis"), (Hget "members"), (Hget "presences"),
    (Hget "voice_states") by set_solver.
  destruct Hcount as [Hnone|(n & Hn & Hsome)].
  - assert (dict_get guild "member_count" PNone = PNone) as ->
      by (unfold dict_get; by rewrite Hnone).
    unfold Guild.setattr, Guild.get_channel, modify, lift, mbind, M_bind, mret, M_ret.
    simpl. destruct (dict_getitem guild "large") as [e|v].
    all: eexists; split; [reflexivity|].
    all: cbv beta iota delta [Guild.set_attrs Guild.set_roles Guild.set_emojis
      Guild.set_afk_channel Guild.attrs Guild._roles Guild.emojis Guild.afk_channel
      Guild._members Guild._channels Guild._voice_states].
    all: repeat split.
    all: rewrite ?lookup_insert_eq; rewrite ?lookup_insert_ne by done;
         by rewrite ?lookup_insert_eq.
  - assert (dict_get guild "member_count" PNone = PInt n) as ->
      by (unfold dict_get; by rewrite Hsome).
    unfold Guild.setattr, Guild.getattr, Guild.get_channel, modify, lift, mbind, M_bind,
      mret, M_ret.
    simpl. apply Z.eqb_neq in Hn. rewrite Hn. simpl.
    destruct (dict_getitem guild "large") as [e|v].
    all: cbv beta iota delta [Guild.set_attrs Guild.set_roles Guild.set_emojis
      Guild.set_afk_channel Guild.attrs Guild._roles Guild.emojis Guild.afk_channel
      Guild._members Guild._channels Guild._voice_states].
    all: rewrite ?lookup_insert_ne by done; rewrite lookup_insert_eq.
    all: eexists; split; [reflexivity|].
    all: repeat split.
    all: rewrite ?lookup_insert_eq; rewrite ?lookup_insert_ne by done;
         by rewrite ?lookup_insert_eq.
Qed.
End bare.

(** The three-role guild rebuilt from the payload that has only an id and an
    icon: the run ends, and the three roles are gone. *)
Lemma from_data_bare_payload_witness :
  ∃ g', Guild._from_data (sample_env 1) icon_only three_roles = (inr tt, g') ∧
    Guild._roles g' = ∅ ∧ Guild.emojis g' = [] ∧ Guild.afk_channel g' = None ∧
    Guild._members g' = Guild._members three_roles ∧
    Guild._channels g' = Guild._channels three_roles ∧
    Guild._voice_states g' = Guild._voice_states three_roles ∧
    Guild.attrs g' !! "id" = Some (PInt 1) ∧
    Guild.attrs g' !! "owner_id" = Some PNone.
Proof.
  apply from_data_bare_payload.
  - reflexivity.
  - left. reflexivity.
  - intros key Hkey.
    repeat (apply elem_of_cons in Hkey as [->|Hkey]; [reflexivity|]).
    by apply elem_of_nil in Hkey.
Defined.

(** ** The array a [SnowflakeList] ends as *)

(** X27. The array depends on the ids only, not on how they came in: built
    from an unsorted collection and grown by [add] calls, it is the same array
    for every order of the calls, the same as the one built from all the ids
    at once, and the same as the one built from the collection in any other
    order. An id outside the 64-bit range is refused by [add] with
    [OverflowError], whatever the array holds. *)
Theorem snowflake_list_canonical (data data' adds adds' : list Z) :
  Forall (λ x, 0 ≤ x < 2 ^ 64) data →
  Forall (λ x, 0 ≤ x < 2 ^ 64) adds →
  data ≡ₚ data' → adds ≡ₚ adds' →
  (∃ a, res_bind (SnowflakeList.add_all adds) (SnowflakeList.__new__ data false) = inr a ∧
        res_bind (SnowflakeList.add_all adds') (SnowflakeList.__new__ data' false) = inr a ∧
        SnowflakeList.__new__ (data ++ adds) false = inr a) ∧
  (∀ a x, ¬ 0 ≤ x < 2 ^ 64 → SnowflakeList.add x a = inl OverflowError).
Proof.
  intros Hdata Hadds Hpd Hpa. split.
  - assert (Forall (λ x, 0 ≤ x < 2 ^ 64) data') as Hdata' by (by rewrite <-Hpd).
    assert (Forall (λ x, 0 ≤ x < 2 ^ 64) adds') as Hadds' by (by rewrite <-Hpa).
    destruct (new_sorted data false) as (a0 & Hnew & Hs0 & Hp0); [done|done|].
    destruct (add_all_sorted adds a0 Hs0 Hadds) as (a & Hrun & Hs & Hp).
    destruct (new_sorted data' false) as (a0' & Hnew' & Hs0' & Hp0'); [done|done|].
    destruct (add_all_sorted adds' a0' Hs0' Hadds') as (a' & Hrun' & Hs' & Hp').
    destruct (new_sorted (data ++ adds) false) as (b & Hb & Hsb & Hpb);
      [done|by apply Forall_app|].
    exists a. rewrite Hnew, Hnew', Hb. simpl. rewrite Hrun, Hrun'.
    split; [done|]. split; f_equal; apply (StronglySorted_unique Z.le); try done.
    + by rewrite Hp', Hp, Hp0', Hp0, Hpd, Hpa.
    + by rewrite Hpb, Hp, Hp0.
  - intros a x Hx. unfold SnowflakeList.add.
    destruct (bisect_loop_total a x 0 (length a)) as (i & Hi); [done|].
    unfold bisect_left. rewrite Hi. simpl.
    unfold SnowflakeList.insert, SnowflakeList.fits_Q.
    destruct (0 <=? x) eqn:H0; destruct (x <? 2 ^ 64) eqn:H1; simpl; try done.
    apply Z.leb_le in H0. apply Z.ltb_lt in H1. lia.
Qed.

(** The ids 4, 2, 8 and then 5, 1, 9, against 8, 4, 2 and then 9, 5, 1. *)
Lemma snowflake_list_canonical_witness :
  (∃ a, res_bind (SnowflakeList.add_all [5; 1; 9]) (SnowflakeList.__new__ [4; 2; 8] false)
          = inr a ∧
        res_bind (SnowflakeList.add_all [9; 5; 1]) (SnowflakeList.__new__ [8; 4; 2] false)
          = inr a ∧
        SnowflakeList.__new__ ([4; 2; 8] ++ [5; 1; 9]) false = inr a) ∧
  (∀ a x, ¬ 0 ≤ x < 2 ^ 64 → SnowflakeList.add x a = inl OverflowError).
Proof.
  apply snowflake_list_canonical.
  - repeat constructor; lia.
  - repeat constructor; lia.
  - apply (bool_decide_unpack _). by vm_compute.
  - apply (bool_decide_unpack _). by vm_compute.
Defined.
